(** * Token lifecycle of the Office 365 CLI: [src/Auth.ts]

    A shallow embedding of [Service] and [Auth] and the properties of the
    token manager that the design document states about them.

    Conventions of the embedding.
    - A JavaScript [number] is an IEEE 754 binary64 value: Rocq's primitive
      [float].  [undefined > now] is [false] in JavaScript, as is
      [nan > now] here.
    - A JavaScript string is a [string]; each character stands for one code
      unit, as [indexOf] and [substr] count them.
    - A field that can hold [undefined] at run time is an [option].
    - The [Auth] object, the timers of the event loop, the promise returned
      by the call under study, the requests sent and the lines written to
      [stdout] make up one [World], threaded through the code by a state
      monad.  A callback is a definition of its own; the event loop is the
      step function [deliver]. *)

From Stdlib Require Import String Ascii List ZArith Lia Bool.
From Stdlib Require Import Floats.
Import ListNotations.

Local Open Scope list_scope.
Local Open Scope string_scope.

(* ===================================================================== *)
(** ** Built-ins of the JavaScript runtime used by the source *)
(* ===================================================================== *)

Module JS.

(** [a > b] on numbers. *)
Definition gtb (a b : float) : bool := PrimFloat.ltb b a.

(** The first [n] code units of [s], and [s] without them. *)
Fixpoint take (n : nat) (s : string) : string :=
  match n, s with
  | S n', String c s' => String c (take n' s')
  | _, _ => EmptyString
  end.

Fixpoint drop (n : nat) (s : string) : string :=
  match n, s with
  | S n', String _ s' => drop n' s'
  | _, _ => s
  end.

(** Scan [s], whose first code unit has index [i], for the first
    occurrence of [search]. *)
Fixpoint scan (search s : string) (i : nat) : option nat :=
  if String.prefix search s then Some i
  else match s with
       | EmptyString => None
       | String _ s' => scan search s' (S i)
       end.

(** [s.indexOf(search, position)]: the position is clamped to
    [0 .. s.length]; the result is [-1] when there is no occurrence. *)
Definition indexOf (search : string) (position : Z) (s : string) : Z :=
  let start := Nat.min (Z.to_nat (Z.max position 0)) (String.length s) in
  match scan search (drop start s) start with
  | Some i => Z.of_nat i
  | None => (-1)%Z
  end.

(** [s.substr(start, length)]: a negative [start] counts from the end,
    and both are clamped to the string. *)
Definition substr (start len : Z) (s : string) : string :=
  let size := Z.of_nat (String.length s) in
  let from := if (start <? 0)%Z then Z.max (size + start) 0 else Z.min start size in
  let count := Z.min (Z.max len 0) (size - from) in
  take (Z.to_nat count) (drop (Z.to_nat from) s).

(** A template literal renders [undefined] as the word, and booleans as
    [true] and [false]. *)
Definition show (o : option string) : string :=
  match o with
  | Some s => s
  | None => "undefined"
  end.

Definition show_bool (b : bool) : string := if b then "true" else "false".

(** The truth value of a string that may be [undefined]: only a
    non-empty string is truthy. *)
Definition truthy (o : option string) : bool :=
  match o with
  | Some (String _ _) => true
  | _ => false
  end.

(** [encodeURIComponent(s)].  Letters, digits and [- _ . ! ~ * ' ( )]
    stay; any other code unit below 128 becomes [%XX]; a code unit from
    128 to 255 becomes the two escaped bytes of its UTF-8 form. *)
Definition unreserved (c : ascii) : bool :=
  let n := nat_of_ascii c in
  ((65 <=? n)%nat && (n <=? 90)%nat) || ((97 <=? n)%nat && (n <=? 122)%nat)
  || ((48 <=? n)%nat && (n <=? 57)%nat)
  || existsb (Ascii.eqb c) (list_ascii_of_string "-_.!~*'()").

Definition hex_digit (n : nat) : ascii :=
  nth n (list_ascii_of_string "0123456789ABCDEF") "0"%char.

Definition escape (byte : nat) : string :=
  String "%" (String (hex_digit (byte / 16)) (String (hex_digit (byte mod 16)) EmptyString)).

Fixpoint encodeURIComponent (s : string) : string :=
  match s with
  | EmptyString => EmptyString
  | String c s' =>
      let n := nat_of_ascii c in
      (if unreserved c then String c EmptyString
       else if (n <? 128)%nat then escape n
       else escape (192 + n / 64) ++ escape (128 + n mod 64))
      ++ encodeURIComponent s'
  end.

(** [x !== undefined]. *)
Definition defined {A : Type} (o : option A) : bool :=
  match o with
  | Some _ => true
  | None => false
  end.

End JS.

(* ===================================================================== *)
(** ** Data model *)
(* ===================================================================== *)

(** [abstract class Service]: the token store. *)
Module Service.

#[projections(primitive)]
Record t : Type := mk {
  connected : bool;
  resource : string;
  accessToken : option string;
  refreshToken : option string;
  expiresAt : float
}.

Definition set_connected (v : bool) (this : t) : t :=
  mk v (resource this) (accessToken this) (refreshToken this) (expiresAt this).
Definition set_resource (v : string) (this : t) : t :=
  mk (connected this) v (accessToken this) (refreshToken this) (expiresAt this).
Definition set_accessToken (v : option string) (this : t) : t :=
  mk (connected this) (resource this) v (refreshToken this) (expiresAt this).
Definition set_refreshToken (v : option string) (this : t) : t :=
  mk (connected this) (resource this) (accessToken this) v (expiresAt this).
Definition set_expiresAt (v : float) (this : t) : t :=
  mk (connected this) (resource this) (accessToken this) (refreshToken this) v.

(** [public disconnect(): void], one assignment after the other. *)
Definition disconnect (this : t) : t :=
  let this := set_connected false this in
  let this := set_resource "" this in
  let this := set_accessToken (Some "") this in
  let this := set_refreshToken None this in
  set_expiresAt (-1)%float this.

End Service.

(** [interface Token] *)
Module Token.
Record t : Type := mk {
  access_token : string;
  refresh_token : string;
  expires_on : float
}.
End Token.

(** [interface Error]: a payload with the code and its description. *)
Module Error.
Module detail.
Record t : Type := mk {
  error : string;
  error_description : string
}.
End detail.
Record t : Type := mk { error : detail.t }.
End Error.

(** [interface DeviceCode] *)
Module DeviceCode.
Record t : Type := mk {
  interval : float;
  device_code : string;
  message : string
}.
End DeviceCode.

(** A value of type [any] that reaches [reject]: a string, a structured
    error payload, or some other failure of the transport. *)
Inductive any : Type :=
| any_string (s : string)
| any_Error (e : Error.t)
| any_failure (description : string).

(** [public static getResourceFromUrl(url: string): string] *)
Definition getResourceFromUrl (url : string) : string :=
  let resource := url in
  let pos := JS.indexOf "/" 8 resource in
  if (pos >? -1)%Z then JS.substr 0 pos resource else resource.


(* ===================================================================== *)
(** ** The world the code runs in *)
(* ===================================================================== *)

(** The options object handed to [request.post] and [request.get]. *)
Module RequestOptions.
Record t : Type := mk {
  url : string;
  headers : list (string * string);
  body : option string;
  json : bool
}.
End RequestOptions.

(** A request as it leaves the process. *)
Inductive Request : Type :=
| POST (o : RequestOptions.t)
| GET (o : RequestOptions.t).

(** What [stdout.log] is given: a string (a template literal is kept as
    its parts, a number unrendered) or an object. *)
Inductive Part : Type :=
| str (s : string)
| num (x : float).

Inductive Logged : Type :=
| log_text (parts : list Part)
| log_options (o : RequestOptions.t)
| log_Token (json : Token.t)
| log_Error (json : Error.t)
| log_DeviceCode (json : DeviceCode.t).

(** The handle that [setInterval] returns. *)
Definition Timer : Type := nat.

(** The promise that the call returns.  The first [resolve] or [reject]
    settles it; later ones do nothing. *)
Inductive Promise : Type :=
| Pending
| Resolved (accessToken : option string)
| Rejected (err : any).

#[projections(primitive)]
Record World : Type := mkWorld {
  service : Service.t;              (* this.service *)
  appId : option string;            (* this.appId *)
  interval : option Timer;          (* this.interval *)
  timers : list (Timer * float);    (* live timers, with their period in ms *)
  promise : Promise;                (* the promise of the call *)
  network : list Request;           (* requests sent, oldest first *)
  stdout : list Logged              (* lines logged, oldest first *)
}.

(** *** A state monad over the world *)

Definition M (A : Type) : Type := World -> A * World.

Definition ret {A : Type} (a : A) : M A := fun w => (a, w).

Definition bind {A B : Type} (m : M A) (k : A -> M B) : M B :=
  fun w => let (a, w') := m w in k a w'.

Declare Scope auth_scope.
Delimit Scope auth_scope with auth.
Notation "x <- m ;; k" := (bind m (fun x => k))
  (at level 61, m at next level, right associativity) : auth_scope.
Notation "m ;; k" := (bind m (fun _ => k))
  (at level 61, right associativity) : auth_scope.
Local Open Scope auth_scope.

Definition when (b : bool) (m : M unit) : M unit :=
  if b then m else ret tt.

Definition exec {A : Type} (m : M A) (w : World) : World := snd (m w).

(** Reading and writing the fields of [this] and [this.service]. *)
Definition this_service : M Service.t := fun w => (service w, w).
Definition this_appId : M (option string) := fun w => (appId w, w).
Definition this_interval : M (option Timer) := fun w => (interval w, w).

Definition put_service (sv : Service.t) : M unit :=
  fun w => (tt, mkWorld sv (appId w) (interval w) (timers w)
                        (promise w) (network w) (stdout w)).

Definition set_accessToken (v : option string) : M unit :=
  sv <- this_service ;; put_service (Service.set_accessToken v sv).

Definition set_refreshToken (v : option string) : M unit :=
  sv <- this_service ;; put_service (Service.set_refreshToken v sv).

Definition set_expiresAt (v : float) : M unit :=
  sv <- this_service ;; put_service (Service.set_expiresAt v sv).

Definition set_interval (h : option Timer) : M unit :=
  fun w => (tt, mkWorld (service w) (appId w) h (timers w)
                        (promise w) (network w) (stdout w)).

(** [stdout.log(x)] *)
Definition stdout_log (x : Logged) : M unit :=
  fun w => (tt, mkWorld (service w) (appId w) (interval w) (timers w)
                        (promise w) (network w) (stdout w ++ [x])%list).

(** [request.post(o)] and [request.get(o)]: the request leaves; its
    answer comes back later as an event. *)
Definition send (r : Request) : M unit :=
  fun w => (tt, mkWorld (service w) (appId w) (interval w) (timers w)
                        (promise w) (network w ++ [r])%list (stdout w)).

Definition request_post (o : RequestOptions.t) : M unit := send (POST o).
Definition request_get (o : RequestOptions.t) : M unit := send (GET o).

(** [setInterval(callback, ms)]: a handle that no live timer has. *)
Definition fresh_timer (ts : list (Timer * float)) : Timer :=
  S (list_max (map fst ts)).

Definition setInterval (ms : float) : M Timer :=
  fun w => let h := fresh_timer (timers w) in
           (h, mkWorld (service w) (appId w) (interval w) (timers w ++ [(h, ms)])%list
                       (promise w) (network w) (stdout w)).

(** [clearInterval(h)]; nothing happens for [undefined] or a dead handle. *)
Definition clear (h : option Timer) (ts : list (Timer * float)) : list (Timer * float) :=
  match h with
  | Some t => filter (fun e => negb (Nat.eqb (fst e) t)) ts
  | None => ts
  end.

Definition clearInterval (h : option Timer) : M unit :=
  fun w => (tt, mkWorld (service w) (appId w) (interval w) (clear h (timers w))
                        (promise w) (network w) (stdout w)).

(** [new Promise(...)], [resolve(v)] and [reject(err)]. *)
Definition put_promise (p : Promise) : M unit :=
  fun w => (tt, mkWorld (service w) (appId w) (interval w) (timers w)
                        p (network w) (stdout w)).

Definition settle (p : Promise) : M unit :=
  fun w => match promise w with
           | Pending => put_promise p w
           | _ => (tt, w)
           end.

Definition new_Promise : M unit := put_promise Pending.
Definition resolve (accessToken : option string) : M unit := settle (Resolved accessToken).
Definition reject (err : any) : M unit := settle (Rejected err).

(** Is the timer [t] live? *)
Definition live (t : Timer) (w : World) : bool :=
  existsb (fun e => Nat.eqb (fst e) t) (timers w).

(* ===================================================================== *)
(** ** [class Auth] *)
(* ===================================================================== *)

(** Which answer the call is waiting for once the running code has
    returned to the event loop.  [Polling] keeps what the timer callback
    closes over, and counts the polls that have no answer yet. *)
Inductive Awaiting : Type :=
| Nothing
| RefreshAnswer
| DeviceCodeAnswer
| Polling (timer : Timer) (deviceCode : string) (inflight : nat).

(** What the event loop delivers to the call. *)
Inductive Event : Type :=
| refresh_ok (json : Token.t)
| refresh_failed (json : Error.t)
| devicecode_ok (json : DeviceCode.t)
| devicecode_failed (err : any)
| tick
| poll_ok (json : Token.t)
| poll_failed (rej2 : Error.t).

Definition token_endpoint : string :=
  "https://login.microsoftonline.com/common/oauth2/token".

Definition devicecode_endpoint : string :=
  "https://login.microsoftonline.com/common/oauth2/devicecode".

Definition form_headers : list (string * string) :=
  [("Content-Type", "application/x-www-form-urlencoded"); ("accept", "application/json")].

(** The three options objects of the source.  [refresh_options] is built
    at lines 71-79 and again at lines 209-217. *)
Definition refresh_options (resource : string) (appId : option string)
           (refreshToken : string) : RequestOptions.t :=
  {| RequestOptions.url := token_endpoint;
     RequestOptions.headers := form_headers;
     RequestOptions.body :=
       Some ("resource=" ++ JS.encodeURIComponent resource
             ++ "&client_id=" ++ JS.show appId
             ++ "&grant_type=refresh_token&refresh_token=" ++ refreshToken);
     RequestOptions.json := true |}.

Definition devicecode_options (resource : string) (appId : option string)
  : RequestOptions.t :=
  {| RequestOptions.url :=
       devicecode_endpoint ++ "?resource=" ++ resource ++ "&client_id=" ++ JS.show appId;
     RequestOptions.headers := [("accept", "application/json")];
     RequestOptions.body := None;
     RequestOptions.json := true |}.

Definition authCheck_options (resource : string) (appId : option string)
           (deviceCode : string) : RequestOptions.t :=
  {| RequestOptions.url := token_endpoint;
     RequestOptions.headers := form_headers;
     RequestOptions.body :=
       Some ("resource=" ++ JS.encodeURIComponent resource
             ++ "&client_id=" ++ JS.show appId
             ++ "&grant_type=device_code&code=" ++ deviceCode);
     RequestOptions.json := true |}.

(** The three lines that the verbose mode writes around an object. *)
Definition log_object (heading : string) (x : Logged) : M unit :=
  stdout_log (log_text [str heading]) ;;
  stdout_log x ;;
  stdout_log (log_text [str ""]).

(** The code of a structured error: [json.error.error]. *)
Definition code (json : Error.t) : string :=
  Error.detail.error (Error.error json).

(** *** [ensureAccessToken]: the callbacks, then the method *)

(** Lines 88-99: the refresh request was answered with a token. *)
Definition refresh_resolved (verbose : bool) (json : Token.t) : M unit :=
  when verbose (log_object "Response:" (log_Token json)) ;;
  set_accessToken (Some (Token.access_token json)) ;;
  set_refreshToken (Some (Token.refresh_token json)) ;;
  set_expiresAt (Token.expires_on json) ;;
  resolve (Some (Token.access_token json)).

(** Lines 100-109: the refresh request was rejected. *)
Definition refresh_rejected (verbose : bool) (json : Error.t) : M unit :=
  when verbose (log_object "Response:" (log_Error json)) ;;
  reject (any_string (code json)).

(** Lines 142-159: the timer fires and one poll leaves. *)
Definition interval_callback (resource : string) (verbose : bool)
           (deviceCode : string) : M unit :=
  appId <- this_appId ;;
  let authCheckRequestOptions := authCheck_options resource appId deviceCode in
  when verbose
    (log_object "Executing web request:" (log_options authCheckRequestOptions)) ;;
  request_post authCheckRequestOptions.

(** Lines 160-173: a poll was answered with a token. *)
Definition poll_resolved (verbose : bool) (json : Token.t) : M unit :=
  when verbose (log_object "Response:" (log_Token json)) ;;
  set_accessToken (Some (Token.access_token json)) ;;
  set_refreshToken (Some (Token.refresh_token json)) ;;
  set_expiresAt (Token.expires_on json) ;;
  h <- this_interval ;;
  clearInterval h ;;
  sv <- this_service ;;
  resolve (Service.accessToken sv).

(** Lines 173-190: a poll was rejected. *)
Definition poll_rejected (verbose : bool) (rej2 : Error.t) : M unit :=
  if negb (String.eqb (code rej2) "authorization_pending") then
    when verbose (log_object "Response:" (log_Error rej2)) ;;
    h <- this_interval ;;
    clearInterval h ;;
    reject (any_string (code rej2))
  else
    when verbose (stdout_log (log_text [str "Authorization pending..."])).

(** Lines 131-191: the device code arrived; the timer starts. *)
Definition devicecode_resolved (verbose : bool) (json : DeviceCode.t) : M Awaiting :=
  when verbose (log_object "Response:" (log_DeviceCode json)) ;;
  let interval := DeviceCode.interval json in
  let deviceCode := DeviceCode.device_code json in
  stdout_log (log_text [str (DeviceCode.message json)]) ;;
  h <- setInterval (interval * 1000)%float ;;
  set_interval (Some h) ;;
  ret (Polling h deviceCode 0).

(** Lines 192-194: the device-code request was rejected. *)
Definition devicecode_rejected (err : any) : M unit :=
  reject err.

(** Lines 44-197.  [getTime] is what [new Date().getTime()] reads. *)
Definition ensureAccessToken (resource : string) (verbose : bool)
           (getTime : float) : M Awaiting :=
  when verbose
    (stdout_log (log_text [str "Starting Auth.ensureAccessToken. resource: "; str resource;
                           str ", verbose: "; str (JS.show_bool verbose)])) ;;
  new_Promise ;;
  let now := (getTime / 1000)%float in
  sv <- this_service ;;
  if JS.gtb (Service.expiresAt sv) now && JS.defined (Service.accessToken sv) then
    when verbose
      (stdout_log (log_text [str "Existing access token ";
                             str (JS.show (Service.accessToken sv));
                             str " still valid. Returning..."])) ;;
    resolve (Service.accessToken sv) ;;
    ret Nothing
  else
    when verbose
      (stdout_log (log_text [str "No existing access token or expired. Token: ";
                             str (JS.show (Service.accessToken sv));
                             str ", ExpiresAt: "; num (Service.expiresAt sv)])) ;;
    appId <- this_appId ;;
    if JS.truthy (Service.refreshToken sv) then
      when verbose
        (stdout_log (log_text [str "Retrieving new access token using existing refresh token ";
                               str (JS.show (Service.refreshToken sv))])) ;;
      let requestOptions :=
        refresh_options resource appId (JS.show (Service.refreshToken sv)) in
      when verbose (log_object "Executing web request..." (log_options requestOptions)) ;;
      request_post requestOptions ;;
      ret RefreshAnswer
    else
      when verbose
        (stdout_log (log_text [str "No existing refresh token. Starting new device code flow..."])) ;;
      let requestOptions := devicecode_options resource appId in
      when verbose (log_object "Executing web request..." (log_options requestOptions)) ;;
      request_get requestOptions ;;
      ret DeviceCodeAnswer.

(** *** [getAccessToken] *)

(** Lines 199-225: up to the request. *)
Definition getAccessToken (resource refreshToken : string) (verbose : bool) : M unit :=
  when verbose
    (stdout_log (log_text [str "Starting Auth.getAccessToken. resource: "; str resource;
                           str ", refreshToken: "; str refreshToken;
                           str ", verbose: "; str (JS.show_bool verbose)])) ;;
  new_Promise ;;
  when verbose
    (stdout_log (log_text [str "Retrieving access token for "; str resource;
                           str " using refresh token "; str refreshToken])) ;;
  appId <- this_appId ;;
  let requestOptions := refresh_options resource appId refreshToken in
  when verbose (log_object "Executing web request..." (log_options requestOptions)) ;;
  request_post requestOptions.

(** Lines 226-234: the request was answered with a token. *)
Definition getAccessToken_resolved (verbose : bool) (json : Token.t) : M unit :=
  when verbose (log_object "Response:" (log_Token json)) ;;
  resolve (Some (Token.access_token json)).

(** Lines 234-236: the request was rejected. *)
Definition getAccessToken_rejected (err : any) : M unit :=
  reject err.

(** The whole of [getAccessToken] with the answer [r] to its request. *)
Definition getAccessToken_with (resource refreshToken : string) (verbose : bool)
           (r : Token.t + any) : M unit :=
  getAccessToken resource refreshToken verbose ;;
  match r with
  | inl json => getAccessToken_resolved verbose json
  | inr err => getAccessToken_rejected err
  end.

(** *** The event loop, for one call of [ensureAccessToken] *)

Definition Config : Type := (Awaiting * World)%type.

Section Call.

(** The arguments of the call, which every callback closes over. *)
Variables (resource : string) (verbose : bool).

(** An event is delivered only when the call waits for it: an answer
    when its request is out, a tick while the timer of the call is
    live.  The answer to a poll still arrives after the timer is
    cleared. *)
Definition deliver (ev : Event) (c : Config) : option Config :=
  let w := snd c in
  match fst c with
  | Nothing => None
  | RefreshAnswer =>
      match ev with
      | refresh_ok json => Some (Nothing, exec (refresh_resolved verbose json) w)
      | refresh_failed json => Some (Nothing, exec (refresh_rejected verbose json) w)
      | _ => None
      end
  | DeviceCodeAnswer =>
      match ev with
      | devicecode_ok json => Some (devicecode_resolved verbose json w)
      | devicecode_failed err => Some (Nothing, exec (devicecode_rejected err) w)
      | _ => None
      end
  | Polling t deviceCode n =>
      match ev, n with
      | tick, _ =>
          if live t w
          then Some (Polling t deviceCode (S n),
                     exec (interval_callback resource verbose deviceCode) w)
          else None
      | poll_ok json, S n' =>
          Some (Polling t deviceCode n', exec (poll_resolved verbose json) w)
      | poll_failed rej2, S n' =>
          Some (Polling t deviceCode n', exec (poll_rejected verbose rej2) w)
      | _, _ => None
      end
  end.

Fixpoint run (es : list Event) (c : Config) : option Config :=
  match es with
  | [] => Some c
  | ev :: es' =>
      match deliver ev c with
      | Some c' => run es' c'
      | None => None
      end
  end.

(** The call at clock reading [getTime], followed by the events [es]. *)
Definition session (getTime : float) (es : list Event) (w : World)
  : option Config :=
  run es (ensureAccessToken resource verbose getTime w).

End Call.

(** The failure that an event brings, if it brings one: the reason the
    source passes to [reject]. *)
Definition failure (ev : Event) : option any :=
  match ev with
  | refresh_failed json => Some (any_string (code json))
  | devicecode_failed err => Some err
  | poll_failed rej2 =>
      if String.eqb (code rej2) "authorization_pending" then None
      else Some (any_string (code rej2))
  | _ => None
  end.

(** The world with another token store. *)
Definition with_service (sv : Service.t) (w : World) : World :=
  exec (put_service sv) w.

(** A string without a path separator. *)
Fixpoint slashless (s : string) : bool :=
  match s with
  | EmptyString => true
  | String c s' => negb (Ascii.eqb c "/") && slashless s'
  end.

(** *** Sentences of the design document, as they are written

    The refresh flow: with an empty access token or an expiry that has
    passed, and a refresh token set, the call sends one refresh-token
    exchange, and a token in answer becomes the store and the result. *)
Definition refresh_on_empty_or_expired : Prop :=
  forall (resource : string) (verbose : bool) (getTime : float) (w : World)
         (rt : string),
    (Service.accessToken (service w) = Some ""
     \/ PrimFloat.leb (Service.expiresAt (service w)) (getTime / 1000) = true) ->
    Service.refreshToken (service w) = Some rt ->
    let c := ensureAccessToken resource verbose getTime w in
    network (snd c) = (network w ++ [POST (refresh_options resource (appId w) rt)])%list
    /\ forall json : Token.t,
        exists w',
          deliver resource verbose (refresh_ok json) c = Some (Nothing, w')
          /\ Service.accessToken (service w') = Some (Token.access_token json)
          /\ Service.refreshToken (service w') = Some (Token.refresh_token json)
          /\ Service.expiresAt (service w') = Token.expires_on json
          /\ promise w' = Resolved (Some (Token.access_token json))
          /\ network w' = network (snd c).

(** [getAccessToken] fails as the refresh flow does: with the code of the
    structured error, not with the payload. *)
Definition getAccessToken_rejects_with_code : Prop :=
  forall (resource refreshToken : string) (verbose : bool) (w : World)
         (json : Error.t),
    promise (exec (getAccessToken_with resource refreshToken verbose
                                       (inr (any_Error json))) w)
    = Rejected (any_string (code json)).

(** The events that bring a token: the only ones whose handler writes to
    the token store (lines 95-97 and 167-169). *)
Definition brings_token (ev : Event) : bool :=
  match ev with
  | refresh_ok _ | poll_ok _ => true
  | _ => false
  end.

(** The failure paths: every failure that is delivered to a call -- the
    refresh-token exchange rejected, the device-code request rejected, a
    poll rejected with a code other than [authorization_pending] --
    rejects the call, and every field of the token store is as it was
    before the call. *)
Definition failure_rejects_and_keeps_store : Prop :=
  forall (resource : string) (verbose : bool) (getTime : float) (w : World)
         (es : list Event) (c : Config) (ev : Event) (err : any) (c' : Config),
    session resource verbose getTime es w = Some c ->
    failure ev = Some err ->
    deliver resource verbose ev c = Some c' ->
    promise (snd c') = Rejected err /\ service (snd c') = service w.

(** The same of the state a rejected call is in, whenever it is looked
    at: the store is the store before the call. *)
Definition rejected_call_keeps_store : Prop :=
  forall (resource : string) (verbose : bool) (getTime : float) (w : World)
         (es : list Event) (c : Config) (err : any),
    session resource verbose getTime es w = Some c ->
    promise (snd c) = Rejected err ->
    service (snd c) = service w.

(** *** The values of the scenarios of the design document *)

(** A world around the store [sv], before any call. *)
Definition world_of (sv : Service.t) : World :=
  mkWorld sv (Some "app-id") None [] Pending [] [].

(** The clock reads 1000 s. *)
Definition clock : float := 1000000%float.

Definition token_AT1 : Token.t := Token.mk "AT1" "RT1" 4600%float.

Definition authorization_pending : Error.t :=
  Error.mk (Error.detail.mk "authorization_pending" "the user has not signed in yet").

Definition invalid_grant : Error.t :=
  Error.mk (Error.detail.mk "invalid_grant" "token revoked").

Definition device_code_abc : DeviceCode.t :=
  DeviceCode.mk 5%float "abc" "go to url, enter XYZ".

(** The test of lines 52-53. *)
Definition still_valid (getTime : float) (w : World) : bool :=
  JS.gtb (Service.expiresAt (service w)) (getTime / 1000)
  && JS.defined (Service.accessToken (service w)).

(** What holds of the call [ensureAccessToken] in world [w] at every
    point of its session: [connected], [resource] and [appId] are those
    of [w]; while the promise is pending the whole store is; a request
    that is out has a pending promise; and while polling, [this.interval]
    is the timer of the call. *)
Definition invariant (w : World) (c : Config) : Prop :=
  Service.connected (service (snd c)) = Service.connected (service w)
  /\ Service.resource (service (snd c)) = Service.resource (service w)
  /\ appId (snd c) = appId w
  /\ (promise (snd c) = Pending -> service (snd c) = service w)
  /\ match fst c with
     | Nothing => True
     | RefreshAnswer | DeviceCodeAnswer => promise (snd c) = Pending
     | Polling t _ _ => interval (snd c) = Some t
     end.

Arguments refresh_options : simpl never.
Arguments devicecode_options : simpl never.
Arguments authCheck_options : simpl never.

(** The world without what was written to [stdout]. *)
Definition muted (w : World) : World :=
  mkWorld (service w) (appId w) (interval w) (timers w) (promise w) (network w) [].

(** *** What a session sends and which timers it leaves *)

Definition is_tick (ev : Event) : bool :=
  match ev with
  | tick => true
  | _ => false
  end.

(** How many times the timer fired in [es]. *)
Definition tick_count (es : list Event) : nat :=
  length (filter is_tick es).

(** The device code that the first event of [es] brings, if it is the
    answer to the device-code request. *)
Definition device_code_of (es : list Event) : string :=
  match es with
  | devicecode_ok json :: _ => DeviceCode.device_code json
  | _ => ""
  end.

(** The timers during a call made in world [w]: those of [w], and while
    the call polls, its own timer or nothing more. *)
Definition timers_of_call (w : World) (c : Config) : Prop :=
  match fst c with
  | Polling t _ _ =>
      t = fresh_timer (timers w)
      /\ interval (snd c) = Some t
      /\ ((live t (snd c) = false /\ timers (snd c) = timers w)
          \/ (live t (snd c) = true
              /\ exists ms, timers (snd c) = (timers w ++ [(t, ms)])%list))
  | _ => timers (snd c) = timers w
  end.

(* ===================================================================== *)
(** ** [class SpoTenantCdnGetCommand]: [o365/spo/commands/tenant-cdn-get.ts] *)
(* ===================================================================== *)

(** [interface Options extends VerboseOption]: either option can be
    missing from the command line. *)
Module Options.
Record t : Type := mk {
  verbose : option bool;
  type : option string
}.
End Options.

(** [interface CommandArgs] *)
Module CommandArgs.
Record t : Type := mk { options : Options.t }.
End CommandArgs.

(** [x === s] for a string [x] that may be [undefined]. *)
Definition is_string (x : option string) (s : string) : bool :=
  match x with
  | Some x' => String.eqb x' s
  | None => false
  end.

(** [public validate(): CommandValidate], lines 150-161: [true], or the
    message that says why not. *)
Definition validate (args : CommandArgs.t) : bool + string :=
  let type := Options.type (CommandArgs.options args) in
  if JS.truthy type then
    if negb (is_string type "Public") && negb (is_string type "Private") then
      inr (JS.show type ++ " is not a valid CDN type. Allowed values are Public|Private")
    else inl true
  else inl true.

(** Lines 36-38 of the action. *)
Definition verbose_of (args : CommandArgs.t) : bool :=
  match Options.verbose (CommandArgs.options args) with
  | Some true => true
  | _ => false
  end.

Definition cdnTypeString_of (args : CommandArgs.t) : string :=
  let type := Options.type (CommandArgs.options args) in
  if JS.truthy type then JS.show type else "Public".

Definition cdnType_of (args : CommandArgs.t) : nat :=
  if String.eqb (cdnTypeString_of args) "Private" then 1 else 0.

(** The two places that name the CDN back to the user: line 91 tests
    [cdnType === 1], line 124 tests [cdnType === 0]. *)
Definition name_at_91 (cdnType : nat) : string :=
  if Nat.eqb cdnType 1 then "Private" else "Public".

Definition name_at_124 (cdnType : nat) : string :=
  if Nat.eqb cdnType 0 then "Public" else "Private".

(** [${cdnType}]: the number is 0 or 1. *)
Definition show_cdnType (cdnType : nat) : string :=
  if Nat.eqb cdnType 1 then "1" else "0".

(** [auth.site]: the fields that the command reads.  The class is
    declared in [SpoAuth], which is not among these sources. *)
Module Site.
Record t : Type := mk {
  connected : bool;
  url : string;
  tenantId : string
}.
End Site.

(** [ContextInfo], of which the command reads [FormDigestValue]. *)
Module ContextInfo.
Record t : Type := mk { FormDigestValue : string }.
End ContextInfo.

(** An element of the array that [JSON.parse] gives, as far as the
    command looks at it: is it [true], is it an object and has it an
    [ErrorInfo] (kept as its [ErrorMessage]), is it [null].  The answer
    is an array, as its type [ClientSvcResponse] has it, and an
    [ErrorInfo] is an object with a string [ErrorMessage], as line 120
    takes it. *)
Inductive Item : Type :=
| item_true
| item_false
| item_contents (ErrorInfo : option string)
| item_null
| item_other.

(** [x === true] *)
Definition is_true (x : Item) : bool :=
  match x with
  | item_true => true
  | _ => false
  end.

(** [appInsights.trackEvent] is given a name and properties. *)
Module TrackedEvent.
Record t : Type := mk {
  name : string;
  properties : list (string * string)
}.
End TrackedEvent.

(** What the command takes from modules that are not among these
    sources. *)
Module Env.
Record t : Type := mk {
  TENANT_CDN_GET : string;                    (* commands.TENANT_CDN_GET *)
  applicationName : string;                   (* config.applicationName *)
  isTenantAdminSite : Site.t -> bool;         (* auth.site.isTenantAdminSite() *)
  red : string -> string;                     (* vorpal.chalk.red *)
  describe : any -> string;                   (* String(err), err not a string *)
  JSON_parse : string -> option (list Item)   (* JSON.parse; None when it throws *)
}.
End Env.

(** [${err}] *)
Definition String_of (env : Env.t) (err : any) : string :=
  match err with
  | any_string s => s
  | _ => Env.describe env err
  end.

(** A line of [this.log]: what [Auth] can log too, or a [ContextInfo]. *)
Inductive Line : Type :=
| logged (x : Logged)
| logged_ContextInfo (res : ContextInfo.t).

(** The command and what surrounds it.  [Auth] logs to the command, so
    there is one sink: the lines in [log], then those still in the
    [stdout] of the world of [Auth]. *)
#[projections(primitive)]
Record Shell : Type := mkShell {
  auth : World;                        (* auth, and the event loop *)
  site : Site.t;                       (* auth.site *)
  log : list Line;                     (* lines of the sink, oldest first *)
  tracked : list TrackedEvent.t;       (* events given to appInsights *)
  cb_calls : nat                       (* how often cb() was called *)
}.

Definition sink (s : Shell) : list Line :=
  (log s ++ map logged (stdout (auth s)))%list.

(** How far the chain of promises of the action has come. *)
Inductive Stage : Type :=
| Authenticating
| ContextInfoAnswer
| QueryAnswer
| Completed
| Threw.

(** What the event loop delivers to the command: an event for the call
    of [ensureAccessToken], or the answer to one of the two requests of
    the command. *)
Inductive Happening : Type :=
| of_auth (ev : Event)
| contextinfo_ok (res : ContextInfo.t)
| contextinfo_failed (err : any)
| query_ok (res : string)
| query_failed (err : any).

(** The double quote. *)
Definition dq : string := String (ascii_of_nat 34) EmptyString.

(** [ name="value"] *)
Definition attr (name value : string) : string :=
  " " ++ name ++ "=" ++ dq ++ value ++ dq.

(** The options objects of lines 67-74 and 93-100. *)
Definition contextinfo_options (url : string) (accessToken : option string)
  : RequestOptions.t :=
  {| RequestOptions.url := url ++ "/_api/contextinfo";
     RequestOptions.headers :=
       [("authorization", "Bearer " ++ JS.show accessToken);
        ("accept", "application/json;odata=nometadata")];
     RequestOptions.body := None;
     RequestOptions.json := true |}.

Definition query_options (env : Env.t) (s : Site.t) (accessToken : option string)
           (res : ContextInfo.t) (cdnType : nat) : RequestOptions.t :=
  {| RequestOptions.url := Site.url s ++ "/_vti_bin/client.svc/ProcessQuery";
     RequestOptions.headers :=
       [("authorization", "Bearer " ++ JS.show accessToken);
        ("X-RequestDigest", ContextInfo.FormDigestValue res)];
     RequestOptions.body :=
       Some ("<Request" ++ attr "AddExpandoFieldTypeSuffix" "true"
             ++ attr "SchemaVersion" "15.0.0.0"
             ++ attr "LibraryVersion" "16.0.0.0"
             ++ attr "ApplicationName" (Env.applicationName env)
             ++ attr "xmlns" "http://schemas.microsoft.com/sharepoint/clientquery/2009"
             ++ "><Actions><Method" ++ attr "Name" "GetTenantCdnEnabled"
             ++ attr "Id" "12" ++ attr "ObjectPathId" "8"
             ++ "><Parameters><Parameter" ++ attr "Type" "Enum" ++ ">"
             ++ show_cdnType cdnType
             ++ "</Parameter></Parameters></Method></Actions><ObjectPaths><Identity"
             ++ attr "Id" "8" ++ attr "Name" (Site.tenantId s)
             ++ " /></ObjectPaths></Request>");
     RequestOptions.json := false |}.

(** *** A state monad over the shell *)

Definition C (A : Type) : Type := Shell -> A * Shell.

Definition retC {A : Type} (a : A) : C A := fun s => (a, s).

Definition bindC {A B : Type} (m : C A) (k : A -> C B) : C B :=
  fun s => let (a, s') := m s in k a s'.

Declare Scope command_scope.
Delimit Scope command_scope with command.
Notation "x <- m ;; k" := (bindC m (fun x => k))
  (at level 61, m at next level, right associativity) : command_scope.
Notation "m ;; k" := (bindC m (fun _ => k))
  (at level 61, right associativity) : command_scope.

Definition whenC (b : bool) (m : C unit) : C unit :=
  if b then m else retC tt.

(** Code of [Auth] run by the command. *)
Definition liftM {A : Type} (m : M A) : C A :=
  fun s => let (a, w) := m (auth s) in
           (a, mkShell w (site s) (log s) (tracked s) (cb_calls s)).

Definition auth_site : C Site.t := fun s => (site s, s).
Definition auth_service : C Service.t := liftM this_service.

(** [this.log(x)]: the line goes after all that the sink holds. *)
Definition this_log (x : Line) : C unit :=
  fun s => (tt, mkShell (mkWorld (service (auth s)) (appId (auth s))
                                 (interval (auth s)) (timers (auth s))
                                 (promise (auth s)) (network (auth s)) [])
                        (site s) (sink s ++ [x])%list (tracked s) (cb_calls s)).

Definition log_string (parts : list Part) : C unit :=
  this_log (logged (log_text parts)).

(** [cb()] *)
Definition cb : C unit :=
  fun s => (tt, mkShell (auth s) (site s) (log s) (tracked s) (S (cb_calls s))).

(** [appInsights.trackEvent(e)] *)
Definition trackEvent (e : TrackedEvent.t) : C unit :=
  fun s => (tt, mkShell (auth s) (site s) (log s) (tracked s ++ [e])%list (cb_calls s)).

Definition log_request_of_command (o : RequestOptions.t) : C unit :=
  (log_string [str "Executing web request..."] ;;
   this_log (logged (log_options o)) ;;
   log_string [str ""])%command.

(** *** The action: its callbacks, then the function *)

(** Lines 62-83: the token arrived; the first request leaves. *)
Definition on_token (verbose : bool) (accessToken : option string) : C unit :=
  (s <- auth_site ;;
   whenC verbose
     (log_string [str "Retrieved access token "; str (JS.show accessToken);
                  str ". Loading CDN settings for the "; str (Site.url s);
                  str " tenant..."]) ;;
   let requestOptions := contextinfo_options (Site.url s) accessToken in
   whenC verbose (log_request_of_command requestOptions) ;;
   liftM (request_post requestOptions))%command.

(** Lines 84-109: the form digest arrived; the second request leaves,
    with the access token that the store holds now. *)
Definition on_contextinfo (env : Env.t) (verbose : bool) (cdnType : nat)
           (res : ContextInfo.t) : C unit :=
  (whenC verbose
     (log_string [str "Response:"] ;;
      this_log (logged_ContextInfo res) ;;
      log_string [str ""]) ;;
   log_string [str "Retrieving status of "; str (name_at_91 cdnType); str " CDN..."] ;;
   s <- auth_site ;;
   sv <- auth_service ;;
   let requestOptions :=
     query_options env s (Service.accessToken sv) res cdnType in
   whenC verbose (log_request_of_command requestOptions) ;;
   liftM (request_post requestOptions))%command.

(** Lines 110-126: the answer to the query.  [JSON.parse] can throw, and
    so can reading [ErrorInfo] off a first element that is [undefined]
    or [null]; then the handler stops there. *)
Definition on_result (env : Env.t) (verbose : bool) (cdnType : nat)
           (res : string) : C Stage :=
  (whenC verbose
     (log_string [str "Response:"] ;;
      log_string [str res] ;;
      log_string [str ""]) ;;
   match Env.JSON_parse env res with
   | None => retC Threw
   | Some json =>
       match json with
       | [] => retC Threw
       | item_null :: _ => retC Threw
       | item_contents (Some ErrorMessage) :: _ =>
           log_string [str (Env.red env ("Error: " ++ ErrorMessage))] ;;
           cb ;;
           retC Completed
       | _ :: _ =>
           let result := is_true (last json item_other) in
           s <- auth_site ;;
           log_string [str (name_at_124 cdnType); str " CDN at "; str (Site.url s);
                       str " is "; str (if result then "enabled" else "disabled")] ;;
           cb ;;
           retC Completed
       end
   end)%command.

(** Lines 127-130: the token, or one of the two requests, failed. *)
Definition on_error (env : Env.t) (err : any) : C unit :=
  (log_string [str (Env.red env ("Error: " ++ String_of env err))] ;;
   cb)%command.

(** The reactions to the promise of [ensureAccessToken], run as soon as
    the code that settled it has returned. *)
Definition on_settled (env : Env.t) (verbose : bool) : C Stage :=
  fun s =>
    match promise (auth s) with
    | Pending => (Authenticating, s)
    | Resolved accessToken =>
        (ContextInfoAnswer, snd (on_token verbose accessToken s))
    | Rejected err => (Completed, snd (on_error env err s))
    end.

(** Lines 34-131.  The result says how far the chain has come and what
    the call of [ensureAccessToken] waits for. *)
Definition action (env : Env.t) (args : CommandArgs.t) (getTime : float)
  : C (Stage * Awaiting) :=
  (let verbose := verbose_of args in
   let cdnTypeString := cdnTypeString_of args in
   trackEvent {| TrackedEvent.name := Env.TENANT_CDN_GET env;
                 TrackedEvent.properties :=
                   [("cdnType", cdnTypeString);
                    ("verbose", JS.show_bool verbose)] |} ;;
   s <- auth_site ;;
   if negb (Site.connected s) then
     log_string [str "Connect to a SharePoint Online tenant admin site first"] ;;
     cb ;;
     retC (Completed, Nothing)
   else if negb (Env.isTenantAdminSite env s) then
     log_string [str (Site.url s);
                 str " is not a tenant admin site. Connect to your tenant admin site and try again"] ;;
     cb ;;
     retC (Completed, Nothing)
   else
     sv <- auth_service ;;
     a <- liftM (ensureAccessToken (Service.resource sv) verbose getTime) ;;
     stage <- on_settled env verbose ;;
     retC (stage, a))%command.

(** *** The event loop, for one run of the action *)

Definition Run : Type := (Stage * Awaiting * Shell)%type.

Definition with_auth (w : World) (s : Shell) : Shell :=
  mkShell w (site s) (log s) (tracked s) (cb_calls s).

(** [resource] is the argument that the action gave to
    [ensureAccessToken]. *)
Definition happen (env : Env.t) (args : CommandArgs.t) (resource : string)
           (h : Happening) (r : Run) : option Run :=
  let verbose := verbose_of args in
  let cdnType := cdnType_of args in
  let stage := fst (fst r) in
  let a := snd (fst r) in
  let s := snd r in
  match h with
  | of_auth ev =>
      match deliver resource verbose ev (a, auth s) with
      | None => None
      | Some (a', w) =>
          match stage with
          | Authenticating =>
              let (stage', s') := on_settled env verbose (with_auth w s) in
              Some (stage', a', s')
          | _ => Some (stage, a', with_auth w s)
          end
      end
  | contextinfo_ok res =>
      match stage with
      | ContextInfoAnswer =>
          Some (QueryAnswer, a, snd (on_contextinfo env verbose cdnType res s))
      | _ => None
      end
  | contextinfo_failed err =>
      match stage with
      | ContextInfoAnswer => Some (Completed, a, snd (on_error env err s))
      | _ => None
      end
  | query_ok res =>
      match stage with
      | QueryAnswer =>
          let (stage', s') := on_result env verbose cdnType res s in
          Some (stage', a, s')
      | _ => None
      end
  | query_failed err =>
      match stage with
      | QueryAnswer => Some (Completed, a, snd (on_error env err s))
      | _ => None
      end
  end.

Fixpoint happenings (env : Env.t) (args : CommandArgs.t) (resource : string)
         (hs : list Happening) (r : Run) : option Run :=
  match hs with
  | [] => Some r
  | h :: hs' =>
      match happen env args resource h r with
      | Some r' => happenings env args resource hs' r'
      | None => None
      end
  end.

(** The action at clock reading [getTime], then the happenings [hs]. *)
Definition command (env : Env.t) (args : CommandArgs.t) (getTime : float)
           (hs : list Happening) (s : Shell) : option Run :=
  let (j, s') := action env args getTime s in
  happenings env args (Service.resource (service (auth s))) hs (j, s').

(** *** Values for the scenarios of the command *)

(** An environment whose [JSON.parse] reads every answer as an object
    without [ErrorInfo] followed by [true]. *)
Definition env_enabled : Env.t :=
  Env.mk "spo tenant cdn get" "o365" (fun _ => true) (fun s => s)
         (fun _ => "[object Object]")
         (fun _ => Some [item_contents None; item_true]).

(** An environment whose [JSON.parse] throws. *)
Definition env_unparsed : Env.t :=
  Env.mk "spo tenant cdn get" "o365" (fun _ => true) (fun s => s)
         (fun _ => "[object Object]") (fun _ => None).

Definition admin_site : Site.t :=
  Site.mk true "https://contoso-admin.sharepoint.com" "tenant-1".

(** A connected shell whose access token is good until 2000 s. *)
Definition shell_connected : Shell :=
  mkShell (world_of (Service.mk true "https://contoso-admin.sharepoint.com"
                                (Some "AT0") (Some "RT0") 2000%float))
          admin_site [] [] 0.

(** The same with an access token that ran out at 900 s. *)
Definition shell_expired : Shell :=
  mkShell (world_of (Service.mk true "https://contoso-admin.sharepoint.com"
                                (Some "AT0") (Some "RT0") 900%float))
          admin_site [] [] 0.

Definition no_options : CommandArgs.t := CommandArgs.mk (Options.mk None None).

(** *** What a run of the command is measured by *)

(** The callbacks owed at a stage: one once the chain has completed. *)
Definition completed (stage : Stage) : nat :=
  match stage with
  | Completed => 1
  | _ => 0
  end.

(** The failure that a happening brings to the chain at a stage. *)
Definition chain_failure (stage : Stage) (h : Happening) : option any :=
  match stage, h with
  | Authenticating, of_auth ev => failure ev
  | ContextInfoAnswer, contextinfo_failed err => Some err
  | QueryAnswer, query_failed err => Some err
  | _, _ => None
  end.

(** An answer that the last handler cannot read: [JSON.parse] throws, or
    the array is empty, or its first element is [null]. *)
Definition unreadable (json : option (list Item)) : bool :=
  match json with
  | None => true
  | Some [] => true
  | Some (item_null :: _) => true
  | Some _ => false
  end.

(** Run the monad on a world, by value: each primitive is applied to a
    world whose fields are already computed. *)
Tactic Notation "run_monad" :=
  cbv beta iota zeta delta
    [log_object when set_accessToken set_refreshToken set_expiresAt
     request_post request_get resolve reject new_Promise settle
     put_service put_promise this_service this_appId this_interval
     set_interval stdout_log send setInterval clearInterval exec bind ret
     fst snd service appId interval timers promise network stdout
     Service.set_accessToken Service.set_refreshToken Service.set_expiresAt
     Service.connected Service.resource Service.accessToken
     Service.refreshToken Service.expiresAt].

Tactic Notation "run_monad" "in" "*" :=
  cbv beta iota zeta delta
    [log_object when set_accessToken set_refreshToken set_expiresAt
     request_post request_get resolve reject new_Promise settle
     put_service put_promise this_service this_appId this_interval
     set_interval stdout_log send setInterval clearInterval exec bind ret
     fst snd service appId interval timers promise network stdout
     Service.set_accessToken Service.set_refreshToken Service.set_expiresAt
     Service.connected Service.resource Service.accessToken
     Service.refreshToken Service.expiresAt] in *.

Tactic Notation "run_monad" "in" hyp(H) :=
  cbv beta iota zeta delta
    [log_object when set_accessToken set_refreshToken set_expiresAt
     request_post request_get resolve reject new_Promise settle
     put_service put_promise this_service this_appId this_interval
     set_interval stdout_log send setInterval clearInterval exec bind ret
     fst snd service appId interval timers promise network stdout
     Service.set_accessToken Service.set_refreshToken Service.set_expiresAt
     Service.connected Service.resource Service.accessToken
     Service.refreshToken Service.expiresAt] in H.

Tactic Notation "run_command" :=
  cbv beta iota zeta delta
    [log_object when set_accessToken set_refreshToken set_expiresAt
     request_post request_get resolve reject new_Promise settle
     put_service put_promise this_service this_appId this_interval
     set_interval stdout_log send setInterval clearInterval exec bind ret
     fst snd service appId interval timers promise network stdout
     Service.set_accessToken Service.set_refreshToken Service.set_expiresAt
     Service.connected Service.resource Service.accessToken
     Service.refreshToken Service.expiresAt
     retC bindC whenC liftM auth_site auth_service this_log log_string cb
     trackEvent log_request_of_command with_auth sink
     auth site log tracked cb_calls].

Tactic Notation "run_command" "in" "*" :=
  cbv beta iota zeta delta
    [log_object when set_accessToken set_refreshToken set_expiresAt
     request_post request_get resolve reject new_Promise settle
     put_service put_promise this_service this_appId this_interval
     set_interval stdout_log send setInterval clearInterval exec bind ret
     fst snd service appId interval timers promise network stdout
     Service.set_accessToken Service.set_refreshToken Service.set_expiresAt
     Service.connected Service.resource Service.accessToken
     Service.refreshToken Service.expiresAt
     retC bindC whenC liftM auth_site auth_service this_log log_string cb
     trackEvent log_request_of_command with_auth sink
     auth site log tracked cb_calls] in *.

(* ===================================================================== *)
(** ** Strings: [indexOf] and [substr] *)
(* ===================================================================== *)

Lemma prefix_slash (s : string) :
  String.prefix "/" s = true <-> exists s', s = String "/" s'.
Proof.
  destruct s as [|c s']; cbn [String.prefix].
  - split; [discriminate | intros [? ?]; discriminate].
  - destruct (ascii_dec "/" c) as [<-|ne].
    + split; [eauto | destruct s'; reflexivity].
    + split; [discriminate | intros [x H]; inversion H; congruence].
Qed.

Lemma slashless_cons (c : ascii) (s : string) :
  slashless (String c s) = true <-> c <> "/"%char /\ slashless s = true.
Proof.
  cbn [slashless]. rewrite andb_true_iff, negb_true_iff.
  destruct (Ascii.eqb_spec c "/"); intuition congruence.
Qed.

Lemma scan_slashless (s : string) (i : nat) :
  slashless s = true -> JS.scan "/" s i = None.
Proof.
  revert i; induction s as [|c s IH]; intros i H.
  - reflexivity.
  - apply slashless_cons in H as [ne H].
    cbn [JS.scan].
    destruct (String.prefix "/" (String c s)) eqn:E.
    + apply prefix_slash in E as [? [= -> _]]. congruence.
    + apply IH, H.
Qed.

Lemma scan_first_slash (host rest : string) (i : nat) :
  slashless host = true ->
  JS.scan "/" (host ++ String "/" rest) i = Some (i + String.length host).
Proof.
  revert i; induction host as [|c host IH]; intros i H.
  - cbn [append JS.scan].
    replace (String.prefix "/" (String "/" rest)) with true
      by (symmetry; apply prefix_slash; eauto).
    cbn. f_equal. lia.
  - apply slashless_cons in H as [ne H].
    cbn [append JS.scan].
    destruct (String.prefix "/" (String c (host ++ String "/" rest))) eqn:E.
    + apply prefix_slash in E as [? [= -> _]]. congruence.
    + rewrite IH by assumption. cbn. f_equal. lia.
Qed.

(** Where [scan] finds a separator, none comes before it. *)
Lemma scan_Some (s : string) (i k : nat) :
  JS.scan "/" s i = Some k ->
  exists j, k = i + j /\ j < String.length s /\ slashless (JS.take j s) = true.
Proof.
  revert i; induction s as [|c s IH]; intros i; cbn [JS.scan].
  - cbn. discriminate.
  - destruct (String.prefix "/" (String c s)) eqn:E.
    + intros [= <-]. exists 0. cbn. repeat split; lia.
    + intros H. apply IH in H as (j & -> & lt & free).
      exists (S j). cbn. repeat split; try lia.
      apply slashless_cons. split; [|exact free].
      intros ->. assert (String.prefix "/" (String "/" s) = true)
        by (apply prefix_slash; eauto). congruence.
Qed.

Lemma length_take (n : nat) (s : string) :
  String.length (JS.take n s) = Nat.min n (String.length s).
Proof.
  revert s; induction n as [|n IH]; intros [|c s]; cbn; auto.
Qed.

Lemma take_min (n : nat) (s : string) :
  JS.take (Nat.min n (String.length s)) s = JS.take n s.
Proof.
  revert s; induction n as [|n IH]; intros [|c s]; cbn; try reflexivity.
  f_equal. apply IH.
Qed.

Lemma drop_take (n j : nat) (s : string) :
  JS.drop n (JS.take (n + j) s) = JS.take j (JS.drop n s).
Proof.
  revert s; induction n as [|n IH]; intros s.
  - reflexivity.
  - destruct s as [|c s]; cbn.
    + destruct j; reflexivity.
    + apply IH.
Qed.

Lemma take_append (a b : string) :
  JS.take (String.length a) (a ++ b) = a.
Proof.
  induction a as [|c a IH]; cbn.
  - destruct b; reflexivity.
  - f_equal. exact IH.
Qed.

Lemma length_append (a b : string) :
  String.length (a ++ b) = String.length a + String.length b.
Proof.
  induction a as [|c a IH]; cbn; [reflexivity | now rewrite IH].
Qed.

(** [getResourceFromUrl] in terms of the scan from index 8. *)
Lemma getResourceFromUrl_scan (url : string) :
  let start := Nat.min 8 (String.length url) in
  getResourceFromUrl url =
  match JS.scan "/" (JS.drop start url) start with
  | Some k => JS.take k url
  | None => url
  end.
Proof.
  unfold getResourceFromUrl, JS.indexOf.
  replace (Z.to_nat (Z.max 8 0)) with 8 by reflexivity.
  cbv zeta.
  destruct (JS.scan "/" (JS.drop (Nat.min 8 (String.length url)) url)
                    (Nat.min 8 (String.length url))) as [k|]; [|reflexivity].
  replace (Z.of_nat k >? -1)%Z with true by (symmetry; apply Z.gtb_lt; lia).
  unfold JS.substr. cbn [Z.ltb Z.compare].
  replace (Z.to_nat (Z.min 0 (Z.of_nat (String.length url)))) with 0 by lia.
  cbn [JS.drop].
  replace (Z.to_nat _) with (Nat.min k (String.length url)) by lia.
  apply take_min.
Qed.

(** The result has no separator from index 8 on. *)
Lemma getResourceFromUrl_no_slash (url : string) :
  JS.indexOf "/" 8 (getResourceFromUrl url) = (-1)%Z.
Proof.
  rewrite getResourceFromUrl_scan. cbv zeta.
  unfold JS.indexOf. replace (Z.to_nat (Z.max 8 0)) with 8 by reflexivity.
  set (start := Nat.min 8 (String.length url)).
  destruct (JS.scan "/" (JS.drop start url) start) as [k|] eqn:E.
  - apply scan_Some in E as (j & -> & lt & free).
    assert (len : String.length (JS.drop start url) + start = String.length url).
    { subst start. clear. generalize 8. induction url as [|c s IH]; intros [|n]; cbn; try lia.
      specialize (IH n). lia. }
    rewrite length_take.
    replace (Nat.min 8 (Nat.min (start + j) (String.length url))) with start by lia.
    rewrite drop_take, scan_slashless by assumption. reflexivity.
  - fold start. rewrite E. reflexivity.
Qed.

(* ===================================================================== *)
(** ** The token store and the resource of a URL *)
(* ===================================================================== *)

(** C5: whatever the store held, after [disconnect()] it has
    [connected = false], [accessToken = ''], [resource = ''],
    [refreshToken = undefined] and [expiresAt = -1]; so the result does not
    depend on the store before, and a second [disconnect()] changes
    nothing. *)
Theorem disconnect_resets (sv sv' : Service.t) :
  Service.connected (Service.disconnect sv) = false
  /\ Service.accessToken (Service.disconnect sv) = Some ""
  /\ Service.resource (Service.disconnect sv) = ""
  /\ Service.refreshToken (Service.disconnect sv) = None
  /\ Service.expiresAt (Service.disconnect sv) = (-1)%float
  /\ Service.disconnect sv = Service.disconnect sv'
  /\ Service.disconnect (Service.disconnect sv) = Service.disconnect sv.
Proof.
  repeat split.
Qed.

(** C8: for a full HTTPS URL, [getResourceFromUrl] returns the scheme and
    the host: it cuts at the first path separator after the scheme, and
    returns a URL without one unchanged; so it does on the two URLs of the
    design document. *)
Theorem getResourceFromUrl_origin (host path : string) :
  slashless host = true ->
  getResourceFromUrl ("https://" ++ host ++ "/" ++ path) = "https://" ++ host
  /\ getResourceFromUrl ("https://" ++ host) = "https://" ++ host
  /\ getResourceFromUrl "https://contoso.sharepoint.com/sites/x"
     = "https://contoso.sharepoint.com"
  /\ getResourceFromUrl "https://contoso.sharepoint.com"
     = "https://contoso.sharepoint.com".
Proof.
  intros free.
  assert (cut : forall rest,
             Nat.min 8 (String.length ("https://" ++ rest)) = 8
             /\ JS.drop 8 ("https://" ++ rest) = rest).
  { intros rest. split; [|reflexivity]. rewrite length_append. cbn. lia. }
  split; [|split; [|split; reflexivity]].
  - rewrite getResourceFromUrl_scan. cbv zeta.
    destruct (cut (host ++ "/" ++ path)) as [-> ->].
    change ("/" ++ path) with (String "/" path).
    rewrite scan_first_slash by assumption.
    change (8 + String.length host) with (String.length ("https://" ++ host)).
    change ("https://" ++ host ++ String "/" path)
      with (("https://" ++ host) ++ String "/" path).
    apply take_append.
  - rewrite getResourceFromUrl_scan. cbv zeta.
    destruct (cut host) as [-> ->].
    now rewrite scan_slashless.
Qed.

Lemma getResourceFromUrl_origin_witness :
  slashless "contoso.sharepoint.com" = true
  /\ getResourceFromUrl ("https://" ++ "contoso.sharepoint.com" ++ "/" ++ "sites/x")
     = "https://" ++ "contoso.sharepoint.com".
Proof.
  split; [reflexivity|].
  apply (getResourceFromUrl_origin "contoso.sharepoint.com" "sites/x").
  reflexivity.
Defined.

(** C10: [getResourceFromUrl] is idempotent.  The search for the separator
    starts at index 8, so the result has no separator from index 8 on, and
    a string with none there, whatever its first 8 code units, comes back
    unchanged. *)
Theorem getResourceFromUrl_idempotent (s : string) :
  getResourceFromUrl (getResourceFromUrl s) = getResourceFromUrl s
  /\ JS.indexOf "/" 8 (getResourceFromUrl s) = (-1)%Z
  /\ (slashless (JS.drop 8 s) = true -> getResourceFromUrl s = s).
Proof.
  split; [|split].
  - unfold getResourceFromUrl at 1.
    now rewrite getResourceFromUrl_no_slash.
  - apply getResourceFromUrl_no_slash.
  - intros free. rewrite getResourceFromUrl_scan. cbv zeta.
    destruct (Nat.min_spec 8 (String.length s)) as [[lt ->]|[le ->]].
    + now rewrite scan_slashless.
    + rewrite scan_slashless; [reflexivity|].
      clear. induction s as [|c s IH]; cbn; auto.
Qed.

Lemma getResourceFromUrl_idempotent_witness :
  slashless (JS.drop 8 "https://contoso.sharepoint.com") = true
  /\ getResourceFromUrl "https://contoso.sharepoint.com"
     = "https://contoso.sharepoint.com".
Proof.
  split; [reflexivity|].
  apply (getResourceFromUrl_idempotent "https://contoso.sharepoint.com").
  reflexivity.
Defined.

(* ===================================================================== *)
(** ** [ensureAccessToken]: the three ways the call starts *)
(* ===================================================================== *)

Lemma ensureAccessToken_cached resource verbose getTime w :
  still_valid getTime w = true ->
  exists out,
    ensureAccessToken resource verbose getTime w
    = (Nothing, mkWorld (service w) (appId w) (interval w) (timers w)
                        (Resolved (Service.accessToken (service w)))
                        (network w) out).
Proof.
  unfold still_valid, ensureAccessToken; intros valid.
  run_monad in valid.
  destruct verbose; run_monad; rewrite valid; run_monad; eexists; reflexivity.
Qed.

Lemma ensureAccessToken_refresh resource verbose getTime w :
  still_valid getTime w = false ->
  JS.truthy (Service.refreshToken (service w)) = true ->
  exists out,
    ensureAccessToken resource verbose getTime w
    = (RefreshAnswer,
       mkWorld (service w) (appId w) (interval w) (timers w) Pending
               (network w ++ [POST (refresh_options resource (appId w)
                                      (JS.show (Service.refreshToken (service w))))])
               out).
Proof.
  unfold still_valid, ensureAccessToken; intros expired set.
  run_monad in expired. run_monad in set.
  destruct verbose; run_monad; rewrite expired; run_monad; rewrite set;
    run_monad; eexists; reflexivity.
Qed.

Lemma ensureAccessToken_devicecode resource verbose getTime w :
  still_valid getTime w = false ->
  JS.truthy (Service.refreshToken (service w)) = false ->
  exists out,
    ensureAccessToken resource verbose getTime w
    = (DeviceCodeAnswer,
       mkWorld (service w) (appId w) (interval w) (timers w) Pending
               (network w ++ [GET (devicecode_options resource (appId w))])
               out).
Proof.
  unfold still_valid, ensureAccessToken; intros expired unset.
  run_monad in expired. run_monad in unset.
  destruct verbose; run_monad; rewrite expired; run_monad; rewrite unset;
    run_monad; eexists; reflexivity.
Qed.

(* ===================================================================== *)
(** ** The event loop *)
(* ===================================================================== *)

(** A cleared timer is not live. *)
Lemma clear_not_live (t : Timer) (ts : list (Timer * float)) :
  existsb (fun e => Nat.eqb (fst e) t) (clear (Some t) ts) = false.
Proof.
  induction ts as [|[h ms] ts IH]; cbn in *; [reflexivity|].
  destruct (Nat.eqb h t) eqn:E; cbn; [exact IH|].
  now rewrite E.
Qed.

(** Nothing is delivered to a call that waits for nothing. *)
Lemma run_Nothing resource verbose es w c :
  run resource verbose es (Nothing, w) = Some c -> es = [] /\ c = (Nothing, w).
Proof.
  destruct es as [|ev es]; cbn.
  - intros [= <-]. auto.
  - destruct ev; discriminate.
Qed.

Lemma invariant_start resource verbose getTime w :
  invariant w (ensureAccessToken resource verbose getTime w).
Proof.
  destruct (still_valid getTime w) eqn:valid.
  - destruct (ensureAccessToken_cached resource verbose getTime w valid) as [out ->].
    repeat split.
  - destruct (JS.truthy (Service.refreshToken (service w))) eqn:set.
    + destruct (ensureAccessToken_refresh resource verbose getTime w valid set)
        as [out ->].
      repeat split.
    + destruct (ensureAccessToken_devicecode resource verbose getTime w valid set)
        as [out ->].
      repeat split.
Qed.

Lemma invariant_deliver resource verbose w ev c c' :
  invariant w c -> deliver resource verbose ev c = Some c' -> invariant w c'.
Proof.
  destruct c as [a w1]. unfold invariant, deliver.
  cbn [fst snd]. intros (con & res & app & store & phase).
  destruct a as [| | |t deviceCode n], ev; try discriminate.
  - (* refresh_ok *)
    intros [= <-]. unfold refresh_resolved.
    destruct verbose; run_monad in *; rewrite phase; run_monad;
      repeat split; auto; discriminate.
  - (* refresh_failed *)
    intros [= <-]. unfold refresh_rejected.
    destruct verbose; run_monad in *; rewrite phase; run_monad;
      repeat split; auto; discriminate.
  - (* devicecode_ok *)
    intros [= <-]. unfold devicecode_resolved.
    destruct verbose; run_monad in *; repeat split; auto.
  - (* devicecode_failed *)
    intros [= <-]. unfold devicecode_rejected.
    run_monad in *; rewrite phase; run_monad; repeat split; auto; discriminate.
  - (* tick *)
    destruct (live t w1); [|discriminate].
    intros [= <-]. unfold interval_callback.
    destruct verbose; run_monad in *; repeat split; auto.
  - (* poll_ok *)
    destruct n as [|n]; [discriminate|].
    intros [= <-]. unfold poll_resolved.
    destruct (promise w1) eqn:pending;
      destruct verbose; run_monad in *; rewrite pending; run_monad;
      repeat split; auto; discriminate.
  - (* poll_failed *)
    destruct n as [|n]; [discriminate|].
    intros [= <-]. unfold poll_rejected.
    destruct (promise w1) eqn:pending;
      destruct (negb (code rej2 =? "authorization_pending"));
      destruct verbose; run_monad in *; try rewrite pending; run_monad;
      repeat split; auto; discriminate.
Qed.

Lemma invariant_run resource verbose w es :
  forall c c', invariant w c -> run resource verbose es c = Some c' -> invariant w c'.
Proof.
  induction es as [|ev es IH]; cbn; intros c c' inv.
  - now intros [= <-].
  - destruct (deliver resource verbose ev c) as [c1|] eqn:E; [|discriminate].
    apply IH. eapply invariant_deliver; eauto.
Qed.

Lemma invariant_session resource verbose getTime w es c :
  session resource verbose getTime es w = Some c -> invariant w c.
Proof.
  apply invariant_run, invariant_start.
Qed.

(* ===================================================================== *)
(** ** The token manager *)
(* ===================================================================== *)

(** C1: with a non-empty access token in the store and [expiresAt]
    greater than the current time, [ensureAccessToken] resolves with the
    cached token at once and sends no request: the call waits for nothing,
    the requests sent are those sent before, and no event of the loop can
    add one. *)
Theorem cached_token_no_request resource verbose getTime w tok :
  Service.accessToken (service w) = Some tok ->
  tok <> "" ->
  JS.gtb (Service.expiresAt (service w)) (getTime / 1000) = true ->
  exists w',
    ensureAccessToken resource verbose getTime w = (Nothing, w')
    /\ promise w' = Resolved (Some tok)
    /\ network w' = network w
    /\ service w' = service w
    /\ timers w' = timers w
    /\ forall es c,
        session resource verbose getTime es w = Some c -> c = (Nothing, w').
Proof.
  intros cached _ later.
  assert (valid : still_valid getTime w = true).
  { unfold still_valid. rewrite later, cached. reflexivity. }
  destruct (ensureAccessToken_cached resource verbose getTime w valid) as [out E].
  rewrite cached in E.
  eexists. split; [exact E|].
  repeat split.
  intros es c. unfold session. rewrite E.
  intros H. apply run_Nothing in H as [_ ->]. reflexivity.
Qed.

Lemma cached_token_no_request_witness :
  exists w',
    ensureAccessToken "https://graph.example.com" true clock
      (world_of (Service.mk true "https://graph.example.com"
                            (Some "AT0") (Some "RT0") 2000%float))
    = (Nothing, w')
    /\ promise w' = Resolved (Some "AT0")
    /\ network w' = [].
Proof.
  destruct (cached_token_no_request "https://graph.example.com" true clock
              (world_of (Service.mk true "https://graph.example.com"
                                    (Some "AT0") (Some "RT0") 2000%float))
              "AT0" eq_refl ltac:(discriminate) eq_refl)
    as (w' & E & P & N & _).
  exists w'. auto.
Defined.

(** On numbers, [a <= b] excludes [a > b]: the comparisons of binary64,
    by their specification. *)
Lemma SFcompare_antisym (a b : SpecFloat.spec_float) :
  SpecFloat.SFcompare b a = option_map CompOpp (SpecFloat.SFcompare a b).
Proof.
  destruct a as [sa|sa| |sa ma ea], b as [sb|sb| |sb mb eb];
    try destruct sa; try destruct sb; try reflexivity;
    unfold SpecFloat.SFcompare;
    rewrite (Z.compare_antisym ea eb); destruct (ea ?= eb)%Z; try reflexivity;
    change (PosDef.Pos.compare_cont Eq mb ma) with (Pos.compare mb ma);
    change (PosDef.Pos.compare_cont Eq ma mb) with (Pos.compare ma mb);
    rewrite (Pos.compare_antisym ma mb); destruct (ma ?= mb)%positive; reflexivity.
Qed.

Lemma le_not_gt (a b : float) :
  PrimFloat.leb a b = true -> JS.gtb a b = false.
Proof.
  unfold JS.gtb. rewrite leb_spec, ltb_spec.
  unfold SpecFloat.SFleb, SpecFloat.SFltb.
  rewrite (SFcompare_antisym (Prim2SF a) (Prim2SF b)).
  destruct (SpecFloat.SFcompare (Prim2SF a) (Prim2SF b)) as [[]|]; cbn; congruence.
Qed.

(** C2, as the code has it: when the access token is [undefined], or
    [expiresAt <= now], or [expiresAt > now] is false for another reason
    ([expiresAt] is not a number), and the refresh token is a non-empty
    string, [ensureAccessToken] sends one refresh-token exchange and no
    other request, whatever the loop delivers; when the exchange is
    answered with a token, its [access_token], [refresh_token] and
    [expires_on] are the store's [accessToken], [refreshToken] and
    [expiresAt], and the call resolves with that [access_token]. *)
Theorem refresh_on_undefined_or_expired resource verbose getTime w rt :
  (Service.accessToken (service w) = None
   \/ PrimFloat.leb (Service.expiresAt (service w)) (getTime / 1000) = true
   \/ JS.gtb (Service.expiresAt (service w)) (getTime / 1000) = false) ->
  Service.refreshToken (service w) = Some rt ->
  rt <> "" ->
  let c := ensureAccessToken resource verbose getTime w in
  fst c = RefreshAnswer
  /\ network (snd c)
     = (network w ++ [POST (refresh_options resource (appId w) rt)])%list
  /\ (forall es c',
        run resource verbose es c = Some c' -> network (snd c') = network (snd c))
  /\ forall json : Token.t,
      exists w',
        deliver resource verbose (refresh_ok json) c = Some (Nothing, w')
        /\ Service.accessToken (service w') = Some (Token.access_token json)
        /\ Service.refreshToken (service w') = Some (Token.refresh_token json)
        /\ Service.expiresAt (service w') = Token.expires_on json
        /\ promise w' = Resolved (Some (Token.access_token json)).
Proof.
  intros stale set nonempty.
  assert (expired : still_valid getTime w = false).
  { unfold still_valid.
    destruct stale as [-> | [le | ->]]; [apply andb_false_r | | reflexivity].
    now rewrite (le_not_gt _ _ le). }
  assert (truthy : JS.truthy (Service.refreshToken (service w)) = true).
  { rewrite set. destruct rt; [congruence | reflexivity]. }
  destruct (ensureAccessToken_refresh resource verbose getTime w expired truthy)
    as [out E].
  rewrite set in E. cbn [JS.show] in E.
  cbv zeta. rewrite E. cbn [fst snd network].
  assert (answer : forall ev c',
             deliver resource verbose ev
               (RefreshAnswer,
                mkWorld (service w) (appId w) (interval w) (timers w) Pending
                  (network w ++ [POST (refresh_options resource (appId w) rt)])
                  out) = Some c' ->
             fst c' = Nothing
             /\ network (snd c')
                = (network w ++ [POST (refresh_options resource (appId w) rt)])%list).
  { intros ev c'. unfold deliver. cbn [fst snd].
    destruct ev; try discriminate; intros [= <-];
      unfold refresh_resolved, refresh_rejected;
      destruct verbose; run_monad; auto. }
  repeat split.
  - intros [|ev es] c'; cbn [run].
    + now intros [= <-].
    + destruct (deliver _ _ ev _) as [[a w1]|] eqn:D; [|discriminate].
      apply answer in D as [phase sent]. cbn in phase, sent. subst a.
      intros H. apply run_Nothing in H as [_ ->]. exact sent.
  - intros json. unfold deliver. cbn [fst snd]. eexists. split; [reflexivity|].
    unfold refresh_resolved. destruct verbose; run_monad; repeat split.
Qed.

Lemma refresh_on_undefined_or_expired_witness :
  let w := world_of (Service.mk true "https://graph.example.com"
                                (Some "AT0") (Some "RT1") 900%float) in
  let c := ensureAccessToken "https://graph.example.com" false clock w in
  fst c = RefreshAnswer
  /\ network (snd c)
     = [POST (refresh_options "https://graph.example.com" (Some "app-id") "RT1")].
Proof.
  intros w c.
  destruct (refresh_on_undefined_or_expired "https://graph.example.com" false clock
              w "RT1" (or_intror (or_introl eq_refl)) eq_refl ltac:(discriminate))
    as (phase & sent & _).
  split; [exact phase | exact sent].
Defined.

(** C2 as the design document words it does not hold: with the empty
    string as access token and an expiry in the future the call resolves
    with the empty string and sends nothing, the refresh token unused. *)
Lemma refresh_on_empty_or_expired_fails : ~ refresh_on_empty_or_expired.
Proof.
  intros claim.
  destruct (claim "https://graph.example.com" false clock
              (world_of (Service.mk true "https://graph.example.com"
                                    (Some "") (Some "RT1") 2000%float))
              "RT1" (or_introl eq_refl) eq_refl) as [sent _].
  vm_compute in sent. discriminate sent.
Qed.

Example empty_token_is_served_from_the_store :
  let c := ensureAccessToken "https://graph.example.com" false clock
             (world_of (Service.mk true "https://graph.example.com"
                                   (Some "") (Some "RT1") 2000%float)) in
  fst c = Nothing /\ promise (snd c) = Resolved (Some "") /\ network (snd c) = [].
Proof.
  repeat split.
Qed.

(** An event that brings no token leaves the token store as it is. *)
Lemma deliver_keeps_store resource verbose ev c c' :
  deliver resource verbose ev c = Some c' ->
  brings_token ev = false ->
  service (snd c') = service (snd c).
Proof.
  destruct c as [a w1]. unfold deliver. cbn [fst snd].
  destruct a as [| | |t deviceCode n], ev; try discriminate.
  - intros [= <-] _. unfold refresh_rejected.
    destruct (promise w1) eqn:pending;
      destruct verbose; run_monad in *; rewrite pending; run_monad; reflexivity.
  - intros [= <-] _. unfold devicecode_resolved.
    destruct verbose; run_monad in *; reflexivity.
  - intros [= <-] _. unfold devicecode_rejected.
    destruct (promise w1) eqn:pending;
      run_monad in *; rewrite pending; run_monad; reflexivity.
  - destruct (live t w1); [|discriminate].
    intros [= <-] _. unfold interval_callback.
    destruct verbose; run_monad in *; reflexivity.
  - destruct n as [|n]; [discriminate|].
    intros [= <-] _. unfold poll_rejected.
    destruct (promise w1) eqn:pending;
      destruct (negb (code rej2 =? "authorization_pending"));
      destruct verbose; run_monad in *; try rewrite pending; run_monad;
      reflexivity.
Qed.

(** A promise that was rejected stays rejected with the same reason. *)
Lemma deliver_keeps_rejection resource verbose ev c c' err :
  deliver resource verbose ev c = Some c' ->
  promise (snd c) = Rejected err ->
  promise (snd c') = Rejected err.
Proof.
  destruct c as [a w1]. unfold deliver. cbn [fst snd].
  destruct a as [| | |t deviceCode n], ev; try discriminate.
  - intros [= <-] settled. unfold refresh_resolved.
    destruct verbose; run_monad in *; rewrite settled; run_monad; first [reflexivity | exact settled].
  - intros [= <-] settled. unfold refresh_rejected.
    destruct verbose; run_monad in *; rewrite settled; run_monad; first [reflexivity | exact settled].
  - intros [= <-] settled. unfold devicecode_resolved.
    destruct verbose; run_monad in *; first [reflexivity | exact settled].
  - intros [= <-] settled. unfold devicecode_rejected.
    run_monad in *; rewrite settled; run_monad; first [reflexivity | exact settled].
  - destruct (live t w1); [|discriminate].
    intros [= <-] settled. unfold interval_callback.
    destruct verbose; run_monad in *; first [reflexivity | exact settled].
  - destruct n as [|n]; [discriminate|].
    intros [= <-] settled. unfold poll_resolved.
    destruct verbose; run_monad in *; rewrite settled; run_monad; first [reflexivity | exact settled].
  - destruct n as [|n]; [discriminate|].
    intros [= <-] settled. unfold poll_rejected.
    destruct (negb (code rej2 =? "authorization_pending"));
      destruct verbose; run_monad in *; try rewrite settled; run_monad;
      first [reflexivity | exact settled].
Qed.

Lemma run_after_rejection resource verbose err es :
  forall c c',
    promise (snd c) = Rejected err ->
    existsb brings_token es = false ->
    run resource verbose es c = Some c' ->
    promise (snd c') = Rejected err /\ service (snd c') = service (snd c).
Proof.
  induction es as [|ev es IH]; intros c c' settled quiet; cbn [run].
  - intros [= <-]. auto.
  - cbn [existsb] in quiet. apply orb_false_elim in quiet as [this rest].
    destruct (deliver resource verbose ev c) as [c1|] eqn:D; [|discriminate].
    intros R.
    destruct (IH c1 c' (deliver_keeps_rejection _ _ _ _ _ _ D settled) rest R)
      as [still same].
    split; [exact still|].
    rewrite same. exact (deliver_keeps_store _ _ _ _ _ D this).
Qed.

(** C3, as the code has it: when a failure reaches a call of
    [ensureAccessToken] whose promise is still pending -- the refresh-token
    exchange rejected with an error payload of the declared shape, the
    device-code request rejected, or a poll rejected with such a payload
    whose code is not [authorization_pending] -- the call rejects with the
    reason of that failure, and the token store is then, field for field,
    the store before the call.  Call and store stay so as long as no token
    arrives in answer to a poll that was still out.  So it is when the
    refresh endpoint answers [invalid_grant] to the refresh token ["RT1"]:
    one exchange was sent, the call rejects with ["invalid_grant"], nothing
    more is awaited, and the refresh token is still ["RT1"]. *)
Theorem failure_leaves_store resource verbose getTime w :
  (forall es c ev err c',
      session resource verbose getTime es w = Some c ->
      promise (snd c) = Pending ->
      failure ev = Some err ->
      deliver resource verbose ev c = Some c' ->
      (promise (snd c') = Rejected err /\ service (snd c') = service w)
      /\ forall es' c'',
          existsb brings_token es' = false ->
          run resource verbose es' c' = Some c'' ->
          promise (snd c'') = Rejected err /\ service (snd c'') = service w)
  /\ (forall description,
         Service.refreshToken (service w) = Some "RT1" ->
         JS.gtb (Service.expiresAt (service w)) (getTime / 1000) = false ->
         exists w',
           session resource verbose getTime
             [refresh_failed (Error.mk (Error.detail.mk "invalid_grant" description))] w
           = Some (Nothing, w')
           /\ promise w' = Rejected (any_string "invalid_grant")
           /\ service w' = service w
           /\ Service.refreshToken (service w') = Some "RT1"
           /\ network w'
              = (network w ++ [POST (refresh_options resource (appId w) "RT1")])%list).
Proof.
  split.
  - intros es [a w1] ev err c' reach pending fails D.
    assert (now : promise (snd c') = Rejected err /\ service (snd c') = service w).
    { apply invariant_session in reach as (_ & _ & _ & store & _).
      cbn [fst snd] in *. specialize (store pending).
      revert D. unfold deliver. cbn [fst snd].
      destruct a as [| | |t deviceCode n], ev; cbn in fails;
        try discriminate fails; try discriminate.
      + injection fails as <-. intros [= <-].
        unfold refresh_rejected.
        destruct verbose; run_monad in *; rewrite pending; run_monad; auto.
      + injection fails as <-. intros [= <-].
        unfold devicecode_rejected.
        run_monad in *; rewrite pending; run_monad; auto.
      + destruct n as [|n]; [discriminate|]. intros [= <-].
        unfold poll_rejected.
        destruct (code rej2 =? "authorization_pending"); [discriminate|].
        injection fails as <-. cbn [negb].
        destruct verbose; run_monad in *; rewrite pending; run_monad; auto. }
    split; [exact now|].
    destruct now as [rejected store].
    intros es' c'' quiet R.
    destruct (run_after_rejection _ _ _ _ _ _ rejected quiet R) as [still same].
    split; [exact still|]. now rewrite same.
  - intros description set past.
    assert (expired : still_valid getTime w = false).
    { unfold still_valid. now rewrite past. }
    assert (truthy : JS.truthy (Service.refreshToken (service w)) = true)
      by now rewrite set.
    destruct (ensureAccessToken_refresh resource verbose getTime w expired truthy)
      as [out E].
    unfold session. rewrite E, set. cbn [run deliver fst snd JS.show].
    eexists. split; [reflexivity|].
    unfold refresh_rejected. destruct verbose; run_monad; repeat split; auto.
Qed.

Lemma failure_leaves_store_witness :
  (let w := world_of (Service.mk true "https://graph.example.com"
                                 (Some "AT0") (Some "RT1") 900%float) in
   exists w',
     session "https://graph.example.com" false clock [refresh_failed invalid_grant] w
     = Some (Nothing, w')
     /\ promise w' = Rejected (any_string "invalid_grant")
     /\ service w' = service w)
  /\ (let w := world_of (Service.disconnect
                           (Service.mk true "old" (Some "AT0") (Some "RT0") 2000%float)) in
      exists c,
        session "https://graph.example.com" false clock
          [devicecode_ok device_code_abc; tick; tick; poll_failed invalid_grant;
           poll_failed authorization_pending] w = Some c
        /\ promise (snd c) = Rejected (any_string "invalid_grant")
        /\ service (snd c) = service w).
Proof.
  split.
  - intros w.
    destruct (failure_leaves_store "https://graph.example.com" false clock w)
      as [general scenario].
    destruct (scenario "token revoked" eq_refl eq_refl) as (w' & E & _).
    exists w'. split; [exact E|].
    apply (general [] (ensureAccessToken "https://graph.example.com" false clock w)
                   (refresh_failed invalid_grant) (any_string "invalid_grant")
                   (Nothing, w'));
      [reflexivity | reflexivity | reflexivity | exact E].
  - intros w.
    destruct (failure_leaves_store "https://graph.example.com" false clock w)
      as [general _].
    destruct (session "https://graph.example.com" false clock
                [devicecode_ok device_code_abc; tick; tick] w) as [c|] eqn:reach;
      [|discriminate reach].
    destruct (deliver "https://graph.example.com" false (poll_failed invalid_grant) c)
      as [c'|] eqn:D; [|vm_compute in reach; injection reach as <-; discriminate D].
    destruct (run "https://graph.example.com" false
                [poll_failed authorization_pending] c') as [c''|] eqn:R;
      [|vm_compute in reach; injection reach as <-;
        vm_compute in D; injection D as <-; discriminate R].
    assert (pending : promise (snd c) = Pending)
      by (vm_compute in reach; injection reach as <-; reflexivity).
    destruct (general _ c (poll_failed invalid_grant) (any_string "invalid_grant") c'
                reach pending eq_refl D) as [_ after].
    exists c''. split; [|exact (after [poll_failed authorization_pending] c'' eq_refl R)].
    unfold session in *. cbn [run] in *.
    vm_compute in reach. injection reach as <-.
    vm_compute in D. injection D as <-.
    vm_compute in R. injection R as <-.
    reflexivity.
Defined.

(** C3 as the design document words it does not hold.  The timer fires
    whether or not the last poll was answered, so two polls can be out
    together.  When the first is answered with a token and the second with
    [invalid_grant], the failure finds the promise resolved: the call is
    not rejected, and the store holds the new token. *)
Lemma failure_rejects_and_keeps_store_fails : ~ failure_rejects_and_keeps_store.
Proof.
  intros claim.
  destruct (claim "https://graph.example.com" false clock
              (world_of (Service.disconnect
                           (Service.mk true "old" (Some "AT0") (Some "RT0") 2000%float)))
              [devicecode_ok device_code_abc; tick; tick; poll_ok token_AT1]
              _ (poll_failed invalid_grant) (any_string "invalid_grant") _
              eq_refl eq_refl eq_refl) as [rejected _].
  vm_compute in rejected. discriminate rejected.
Qed.

Example failure_after_token :
  let w := world_of (Service.disconnect
                       (Service.mk true "old" (Some "AT0") (Some "RT0") 2000%float)) in
  exists c,
    session "https://graph.example.com" false clock
      [devicecode_ok device_code_abc; tick; tick;
       poll_ok token_AT1; poll_failed invalid_grant] w = Some c
    /\ promise (snd c) = Resolved (Some "AT1")
    /\ Service.accessToken (service (snd c)) = Some "AT1"
    /\ Service.accessToken (service w) = Some "".
Proof.
  intros w. eexists. repeat split.
Qed.

(** The timer fires whether or not the last poll was answered, so the
    answer to an earlier poll can arrive after a failure has rejected the
    promise.  A token that arrives then is written to the store, and the
    promise stays rejected. *)
Example token_after_rejection :
  let w := world_of (Service.disconnect
                       (Service.mk true "old" (Some "AT0") (Some "RT0") 2000%float)) in
  exists c,
    session "https://graph.example.com" false clock
      [devicecode_ok device_code_abc; tick; tick;
       poll_failed invalid_grant; poll_ok token_AT1] w = Some c
    /\ promise (snd c) = Rejected (any_string "invalid_grant")
    /\ Service.accessToken (service (snd c)) = Some "AT1".
Proof.
  intros w. eexists. repeat split.
Qed.

(** Nor is the store of a rejected call the store before the call
    whenever it is looked at. *)
Lemma rejected_call_keeps_store_fails : ~ rejected_call_keeps_store.
Proof.
  intros claim.
  specialize (claim "https://graph.example.com" false clock
                (world_of (Service.disconnect
                             (Service.mk true "old" (Some "AT0") (Some "RT0") 2000%float)))
                [devicecode_ok device_code_abc; tick; tick;
                 poll_failed invalid_grant; poll_ok token_AT1]
                _ (any_string "invalid_grant") eq_refl eq_refl).
  vm_compute in claim. discriminate claim.
Qed.

(** C9: whatever the loop delivers to [ensureAccessToken] -- a cached
    token, a refresh, a device-code flow that succeeds on the first
    authentication -- the fields [connected] and [resource] of the token
    store are those before the call: only [accessToken], [refreshToken]
    and [expiresAt] can differ, and [connected] is not set to [true]. *)
Theorem connected_and_resource_kept resource verbose getTime w es c :
  session resource verbose getTime es w = Some c ->
  Service.connected (service (snd c)) = Service.connected (service w)
  /\ Service.resource (service (snd c)) = Service.resource (service w).
Proof.
  intros reach.
  apply invariant_session in reach as (con & res & _).
  auto.
Qed.

Lemma connected_and_resource_kept_witness :
  let w := world_of (Service.disconnect
                       (Service.mk true "old" (Some "AT0") (Some "RT0") 2000%float)) in
  exists c,
    session "https://graph.example.com" false clock
      [devicecode_ok device_code_abc;
       tick; poll_failed authorization_pending;
       tick; poll_failed authorization_pending;
       tick; poll_ok token_AT1] w = Some c
    /\ promise (snd c) = Resolved (Some "AT1")
    /\ Service.refreshToken (service (snd c)) = Some "RT1"
    /\ Service.connected (service (snd c)) = false
    /\ Service.resource (service (snd c)) = "".
Proof.
  intros w. eexists. split; [reflexivity|].
  split; [reflexivity|]. split; [reflexivity|].
  apply (connected_and_resource_kept "https://graph.example.com" false clock w
           [devicecode_ok device_code_abc;
            tick; poll_failed authorization_pending;
            tick; poll_failed authorization_pending;
            tick; poll_ok token_AT1]).
  reflexivity.
Defined.

(* ===================================================================== *)
(** ** The device-code flow *)
(* ===================================================================== *)

(** C4: while the device-code flow polls and the promise is pending, the
    answer to a poll does one of three things.  An error with the code
    [authorization_pending] leaves the timers as they are (the timer keeps
    running), the promise pending and the token store unchanged.  An error
    with any other code clears the timer and rejects the promise with
    that code.  A token clears the timer, becomes the token store, and
    resolves the promise with the new access token. *)
Theorem poll_answers resource verbose getTime w es t deviceCode n w1 :
  session resource verbose getTime es w = Some (Polling t deviceCode (S n), w1) ->
  promise w1 = Pending ->
  (forall rej2,
      code rej2 = "authorization_pending" ->
      exists w2,
        deliver resource verbose (poll_failed rej2) (Polling t deviceCode (S n), w1)
        = Some (Polling t deviceCode n, w2)
        /\ timers w2 = timers w1
        /\ live t w2 = live t w1
        /\ promise w2 = Pending
        /\ service w2 = service w1)
  /\ (forall rej2,
         code rej2 <> "authorization_pending" ->
         exists w2,
           deliver resource verbose (poll_failed rej2) (Polling t deviceCode (S n), w1)
           = Some (Polling t deviceCode n, w2)
           /\ live t w2 = false
           /\ promise w2 = Rejected (any_string (code rej2))
           /\ service w2 = service w1)
  /\ (forall json,
         exists w2,
           deliver resource verbose (poll_ok json) (Polling t deviceCode (S n), w1)
           = Some (Polling t deviceCode n, w2)
           /\ live t w2 = false
           /\ Service.accessToken (service w2) = Some (Token.access_token json)
           /\ Service.refreshToken (service w2) = Some (Token.refresh_token json)
           /\ Service.expiresAt (service w2) = Token.expires_on json
           /\ promise w2 = Resolved (Some (Token.access_token json))).
Proof.
  intros reach pending.
  apply invariant_session in reach as (_ & _ & _ & _ & handle).
  cbn [fst snd] in handle.
  unfold deliver. cbn [fst snd].
  split; [|split].
  - intros rej2 is_pending. eexists. split; [reflexivity|].
    unfold poll_rejected. rewrite is_pending. cbn [String.eqb negb].
    replace ("authorization_pending" =? "authorization_pending") with true
      by reflexivity.
    cbn [negb]. destruct verbose; run_monad; auto.
  - intros rej2 other. eexists. split; [reflexivity|].
    unfold poll_rejected.
    destruct (String.eqb_spec (code rej2) "authorization_pending") as [|_];
      [contradiction|].
    cbn [negb]. unfold live.
    destruct verbose; run_monad in *; rewrite pending, handle; run_monad;
      auto using clear_not_live.
  - intros json. eexists. split; [reflexivity|].
    unfold poll_resolved, live.
    destruct verbose; run_monad in *; rewrite pending, handle; run_monad;
      repeat split; apply clear_not_live.
Qed.

Lemma poll_answers_witness :
  let w := world_of (Service.disconnect
                       (Service.mk true "old" (Some "AT0") (Some "RT0") 2000%float)) in
  exists c,
    session "https://graph.example.com" false clock
      [devicecode_ok device_code_abc; tick] w = Some c
    /\ promise (snd c) = Pending
    /\ live 1 (snd c) = true
    /\ exists w2,
        deliver "https://graph.example.com" false (poll_ok token_AT1) c
        = Some (Polling 1 "abc" 0, w2)
        /\ live 1 w2 = false
        /\ promise w2 = Resolved (Some "AT1").
Proof.
  intros w. eexists. split; [reflexivity|].
  split; [reflexivity|]. split; [reflexivity|].
  destruct (poll_answers "https://graph.example.com" false clock w
              [devicecode_ok device_code_abc; tick] 1 "abc" 0 _ eq_refl eq_refl)
    as (_ & _ & token).
  destruct (token token_AT1) as (w2 & D & dead & _ & _ & _ & P).
  exists w2. auto.
Defined.

(* ===================================================================== *)
(** ** [getAccessToken] *)
(* ===================================================================== *)

(** C7: [getAccessToken(resource, refreshToken)] leaves the token store
    as it was, whether its request is answered with a token or rejected,
    and does not read it: with another store in place of the store, the
    call does the same and that store is left in place.  It sends the one
    exchange for the refresh token it was given; a token in answer
    resolves the call with its [access_token] alone, [refresh_token] and
    [expires_on] going nowhere. *)
Theorem getAccessToken_frame resource refreshToken verbose w r :
  let call := getAccessToken_with resource refreshToken verbose r in
  service (exec call w) = service w
  /\ (forall sv, exec call (with_service sv w) = with_service sv (exec call w))
  /\ network (exec call w)
     = (network w ++ [POST (refresh_options resource (appId w) refreshToken)])%list
  /\ promise (exec call w)
     = match r with
       | inl json => Resolved (Some (Token.access_token json))
       | inr err => Rejected err
       end.
Proof.
  unfold getAccessToken_with, getAccessToken, getAccessToken_resolved,
    getAccessToken_rejected, with_service.
  destruct r as [json|err], verbose; run_monad; repeat split.
Qed.

(** C6, as the code has it: when the token endpoint rejects, whatever
    the error [err], [getAccessToken] rejects with [err] itself; for a
    structured payload that is the payload, while the refresh flow of
    [ensureAccessToken] rejects with the code inside it. *)
Theorem getAccessToken_rejects_with_payload resource refreshToken verbose w err :
  promise (exec (getAccessToken_with resource refreshToken verbose (inr err)) w)
  = Rejected err
  /\ (forall json w1,
         promise w1 = Pending ->
         promise (exec (refresh_rejected verbose json) w1)
         = Rejected (any_string (code json)))
  /\ (forall json,
         err = any_Error json -> Rejected err <> Rejected (any_string (code json))).
Proof.
  split; [|split].
  - unfold getAccessToken_with, getAccessToken, getAccessToken_rejected.
    destruct verbose; run_monad; reflexivity.
  - intros json w1 pending. unfold refresh_rejected.
    destruct verbose; run_monad in *; now rewrite pending.
  - intros json ->. discriminate.
Qed.

Lemma getAccessToken_rejects_with_payload_witness :
  let w := world_of (Service.disconnect (Service.mk true "" None None 0%float)) in
  promise (exec (getAccessToken_with "https://graph.example.com" "RT1" false
                                     (inr (any_Error invalid_grant))) w)
  = Rejected (any_Error invalid_grant)
  /\ promise (exec (refresh_rejected false invalid_grant) w)
     = Rejected (any_string "invalid_grant")
  /\ Rejected (any_Error invalid_grant) <> Rejected (any_string "invalid_grant").
Proof.
  intros w.
  destruct (getAccessToken_rejects_with_payload
              "https://graph.example.com" "RT1" false w (any_Error invalid_grant))
    as (payload & refresh & distinct).
  split; [exact payload|]. split.
  - apply (refresh invalid_grant). reflexivity.
  - apply (distinct invalid_grant). reflexivity.
Defined.

(** C6 as the design document words it does not hold: on the payload
    [{error: {error: "invalid_grant", ...}}] the call rejects with the
    payload, not with ["invalid_grant"]. *)
Lemma getAccessToken_rejects_with_code_fails : ~ getAccessToken_rejects_with_code.
Proof.
  intros claim.
  specialize (claim "https://graph.example.com" "RT1" false
                    (world_of (Service.disconnect (Service.mk true "" None None 0%float)))
                    invalid_grant).
  vm_compute in claim. discriminate claim.
Qed.

(* ===================================================================== *)
(** ** More on [ensureAccessToken]: requests, timers, the resolved value *)
(* ===================================================================== *)

(** What one event does to a call that polls. *)
Lemma deliver_polling resource verbose ev t deviceCode n w1 c' :
  deliver resource verbose ev (Polling t deviceCode n, w1) = Some c' ->
  exists n' w2,
    c' = (Polling t deviceCode n', w2)
    /\ appId w2 = appId w1
    /\ interval w2 = interval w1
    /\ (if is_tick ev
        then live t w1 = true /\ n' = S n /\ timers w2 = timers w1
             /\ network w2
                = (network w1
                   ++ [POST (authCheck_options resource (appId w1) deviceCode)])%list
        else n = S n' /\ network w2 = network w1
             /\ (timers w2 = timers w1
                 \/ timers w2 = clear (interval w1) (timers w1))).
Proof.
  unfold deliver. cbn [fst snd].
  destruct ev; try discriminate.
  - destruct (live t w1) eqn:alive; [|discriminate].
    intros [= <-]. unfold interval_callback. do 2 eexists.
    split; [reflexivity|].
    destruct verbose; run_monad; cbn [is_tick]; repeat split; auto.
  - destruct n as [|n]; [discriminate|].
    intros [= <-]. unfold poll_resolved. do 2 eexists.
    split; [reflexivity|].
    destruct (promise w1) eqn:pending;
      destruct verbose; run_monad in *; rewrite pending; run_monad;
      cbn [is_tick]; repeat split; auto.
  - destruct n as [|n]; [discriminate|].
    intros [= <-]. unfold poll_rejected. do 2 eexists.
    split; [reflexivity|].
    destruct (negb (code rej2 =? "authorization_pending"));
      destruct (promise w1) eqn:pending;
      destruct verbose; run_monad in *; try rewrite pending; run_monad;
      cbn [is_tick]; repeat split; auto.
Qed.

Lemma run_polling_network resource verbose es :
  forall t deviceCode n w1 c',
    run resource verbose es (Polling t deviceCode n, w1) = Some c' ->
    network (snd c')
    = (network w1
       ++ repeat (POST (authCheck_options resource (appId w1) deviceCode))
                 (tick_count es))%list.
Proof.
  induction es as [|ev es IH]; intros t deviceCode n w1 c'; cbn [run].
  - intros [= <-]. cbn. now rewrite app_nil_r.
  - destruct (deliver resource verbose ev (Polling t deviceCode n, w1))
      as [c1|] eqn:D; [|discriminate].
    apply deliver_polling in D as (n' & w2 & -> & app & _ & effect).
    intros R. apply IH in R. rewrite R, app.
    unfold tick_count. cbn [filter].
    destruct (is_tick ev).
    + destruct effect as (_ & _ & _ & ->). cbn [length repeat].
      now rewrite <- app_assoc.
    + destruct effect as (_ & -> & _). reflexivity.
Qed.

(** X1: when the test of lines 52-53 fails and the refresh token is
    [undefined] or empty, the requests of the call are, in order, one GET
    to the device-code endpoint and then one POST per firing of the timer,
    each with the device code of the answer; answers send nothing, and no
    refresh-token exchange is sent. *)
Theorem device_flow_requests resource verbose getTime w es c :
  still_valid getTime w = false ->
  JS.truthy (Service.refreshToken (service w)) = false ->
  session resource verbose getTime es w = Some c ->
  network (snd c)
  = (network w
     ++ GET (devicecode_options resource (appId w))
     :: repeat (POST (authCheck_options resource (appId w) (device_code_of es)))
               (tick_count es))%list.
Proof.
  intros expired unset. unfold session.
  destruct (ensureAccessToken_devicecode resource verbose getTime w expired unset)
    as [out ->].
  destruct es as [|ev es]; cbn [run].
  - intros [= <-]. reflexivity.
  - unfold deliver at 1. cbn [fst snd].
    destruct ev; try discriminate.
    + destruct (devicecode_resolved verbose json _) as [a w2] eqn:D.
      unfold devicecode_resolved in D.
      assert (shape : a = Polling (fresh_timer (timers w)) (DeviceCode.device_code json) 0
                      /\ appId w2 = appId w
                      /\ network w2
                         = (network w ++ [GET (devicecode_options resource (appId w))])%list).
      { destruct verbose; run_monad in D; injection D as <- <-; repeat split. }
      destruct shape as (-> & app & sent).
      intros R. apply run_polling_network in R.
      rewrite R, sent, app. cbn [device_code_of].
      unfold tick_count. cbn [filter is_tick].
      now rewrite <- app_assoc.
    + intros R. apply run_Nothing in R as [-> ->].
      unfold devicecode_rejected. run_monad. reflexivity.
Qed.

Lemma device_flow_requests_witness :
  let w := world_of (Service.disconnect
                       (Service.mk true "old" (Some "AT0") (Some "RT0") 2000%float)) in
  exists c,
    session "https://graph.example.com" false clock
      [devicecode_ok device_code_abc;
       tick; poll_failed authorization_pending; tick; tick; poll_ok token_AT1] w
    = Some c
    /\ network (snd c)
       = [GET (devicecode_options "https://graph.example.com" (Some "app-id"));
          POST (authCheck_options "https://graph.example.com" (Some "app-id") "abc");
          POST (authCheck_options "https://graph.example.com" (Some "app-id") "abc");
          POST (authCheck_options "https://graph.example.com" (Some "app-id") "abc")].
Proof.
  intros w. eexists. split; [reflexivity|].
  apply (device_flow_requests "https://graph.example.com" false clock w
           [devicecode_ok device_code_abc;
            tick; poll_failed authorization_pending; tick; tick; poll_ok token_AT1]);
    reflexivity.
Defined.

(** A handle that [setInterval] gives is above every live one. *)
Lemma fresh_timer_above (ts : list (Timer * float)) (e : Timer * float) :
  In e ts -> fst e < fresh_timer ts.
Proof.
  intros member. unfold fresh_timer.
  assert (bound : Forall (fun k => k <= list_max (map fst ts)) (map fst ts))
    by now apply list_max_le.
  rewrite Forall_forall in bound.
  specialize (bound (fst e) (in_map fst ts e member)). lia.
Qed.

Lemma fresh_timer_differs (ts : list (Timer * float)) (e : Timer * float) :
  In e ts -> Nat.eqb (fst e) (fresh_timer ts) = false.
Proof.
  intros member. apply fresh_timer_above in member.
  apply Nat.eqb_neq. intros same. rewrite same in member.
  exact (Nat.lt_irrefl _ member).
Qed.

Lemma fresh_timer_not_live (ts : list (Timer * float)) :
  existsb (fun e => Nat.eqb (fst e) (fresh_timer ts)) ts = false.
Proof.
  destruct (existsb (fun e => Nat.eqb (fst e) (fresh_timer ts)) ts) eqn:E;
    [|reflexivity].
  apply existsb_exists in E as (e & member & same).
  exfalso.
  exact (eq_true_false_abs _ same (fresh_timer_differs ts e member)).
Qed.

(** Clearing the timer of the call gives back the timers there were. *)
Lemma clear_own_timer (ts : list (Timer * float)) (ms : float) :
  clear (Some (fresh_timer ts)) (ts ++ [(fresh_timer ts, ms)]) = ts.
Proof.
  unfold clear. rewrite filter_app. cbn [filter fst].
  rewrite Nat.eqb_refl. cbn [negb]. rewrite app_nil_r.
  apply forallb_filter_id, forallb_forall.
  intros e member. apply negb_true_iff.
  exact (fresh_timer_differs ts e member).
Qed.

Lemma clear_absent_timer (ts : list (Timer * float)) :
  clear (Some (fresh_timer ts)) ts = ts.
Proof.
  unfold clear. apply forallb_filter_id, forallb_forall.
  intros e member. apply negb_true_iff.
  exact (fresh_timer_differs ts e member).
Qed.

(** X2: the answer to the device-code request starts the polling.  The
    message of the answer is the last line written to [stdout], verbose
    or not; a timer with a handle that no live timer has is started with
    the period [interval * 1000] and kept in [this.interval]; the call
    polls with the device code of the answer; and the answer itself sends
    no request and writes neither the store nor the promise. *)
Theorem devicecode_answer_starts_polling resource verbose json w1 :
  let h := fresh_timer (timers w1) in
  exists w2 trace,
    deliver resource verbose (devicecode_ok json) (DeviceCodeAnswer, w1)
    = Some (Polling h (DeviceCode.device_code json) 0, w2)
    /\ stdout w2
       = (stdout w1 ++ trace ++ [log_text [str (DeviceCode.message json)]])%list
    /\ (verbose = false -> trace = [])
    /\ live h w1 = false
    /\ live h w2 = true
    /\ timers w2 = (timers w1 ++ [(h, (DeviceCode.interval json * 1000)%float)])%list
    /\ interval w2 = Some h
    /\ network w2 = network w1
    /\ service w2 = service w1
    /\ promise w2 = promise w1.
Proof.
  intros h. unfold deliver. cbn [fst snd].
  assert (alive : forall ms,
             existsb (fun e => Nat.eqb (fst e) h) (timers w1 ++ [(h, ms)]) = true).
  { intros ms. rewrite existsb_app. cbn. rewrite Nat.eqb_refl.
    apply orb_true_iff. right. reflexivity. }
  pose proof (fresh_timer_not_live (timers w1)) as dead.
  unfold devicecode_resolved, live.
  destruct verbose; run_monad.
  - eexists.
    exists [log_text [str "Response:"]; log_DeviceCode json; log_text [str ""]].
    split; [reflexivity|]. cbn [timers stdout].
    repeat split; auto.
    + now rewrite <- !app_assoc.
    + discriminate.
  - eexists. exists [].
    split; [reflexivity|]. cbn [timers stdout].
    repeat split; auto.
Qed.

Lemma devicecode_answer_starts_polling_witness :
  exists w2,
    deliver "https://graph.example.com" false (devicecode_ok device_code_abc)
      (DeviceCodeAnswer, world_of (Service.disconnect
                                     (Service.mk true "" None None 0%float)))
    = Some (Polling 1 "abc" 0, w2)
    /\ stdout w2 = [log_text [str "go to url, enter XYZ"]]
    /\ timers w2 = [(1, 5000%float)].
Proof.
  destruct (devicecode_answer_starts_polling
              "https://graph.example.com" false device_code_abc
              (world_of (Service.disconnect (Service.mk true "" None None 0%float))))
    as (w2 & trace & D & out & quiet & _ & _ & started & _).
  exists w2. split; [exact D|].
  rewrite (quiet eq_refl) in out. split; [exact out | exact started].
Defined.

Lemma timers_of_call_start resource verbose getTime w :
  timers_of_call w (ensureAccessToken resource verbose getTime w).
Proof.
  unfold timers_of_call.
  destruct (still_valid getTime w) eqn:valid.
  - destruct (ensureAccessToken_cached resource verbose getTime w valid) as [out ->].
    reflexivity.
  - destruct (JS.truthy (Service.refreshToken (service w))) eqn:set.
    + destruct (ensureAccessToken_refresh resource verbose getTime w valid set)
        as [out ->].
      reflexivity.
    + destruct (ensureAccessToken_devicecode resource verbose getTime w valid set)
        as [out ->].
      reflexivity.
Qed.

Lemma timers_of_call_deliver resource verbose w ev c c' :
  timers_of_call w c -> deliver resource verbose ev c = Some c' ->
  timers_of_call w c'.
Proof.
  destruct c as [a w1]. unfold timers_of_call at 1. cbn [fst snd].
  destruct a as [| | |t deviceCode n].
  - discriminate.
  - intros same. unfold deliver. cbn [fst snd].
    destruct ev; try discriminate; intros [= <-]; unfold timers_of_call;
      cbn [fst snd]; unfold refresh_resolved, refresh_rejected;
      destruct (promise w1) eqn:pending;
      destruct verbose; run_monad in *; rewrite pending; run_monad; exact same.
  - intros same. unfold deliver. cbn [fst snd].
    destruct ev; try discriminate.
    + destruct (devicecode_answer_starts_polling resource verbose json w1)
        as (w2 & trace & D & _ & _ & _ & alive & started & handle & _).
      unfold deliver in D. cbn [fst snd] in D. rewrite D.
      intros [= <-]. unfold timers_of_call. cbn [fst snd].
      rewrite <- same. repeat split; auto.
      right. split; [exact alive|]. eexists. exact started.
    + intros [= <-]. unfold timers_of_call, devicecode_rejected. cbn [fst snd].
      destruct (promise w1) eqn:pending;
        run_monad in *; rewrite pending; run_monad; exact same.
  - intros (fresh & handle & now) D.
    apply deliver_polling in D as (n' & w2 & -> & _ & handle' & effect).
    unfold timers_of_call. cbn [fst snd].
    rewrite handle', handle. split; [exact fresh|]. split; [reflexivity|].
    assert (cleared : clear (Some t) (timers w1) = timers w).
    { subst t. destruct now as [[_ ->] | [_ [ms ->]]];
        [apply clear_absent_timer | apply clear_own_timer]. }
    assert (dead : forall w3, timers w3 = timers w -> live t w3 = false).
    { intros w3 E. unfold live. rewrite E. subst t. apply fresh_timer_not_live. }
    assert (kept : forall w3, timers w3 = timers w1 -> live t w3 = live t w1).
    { intros w3 E. unfold live. now rewrite E. }
    destruct (is_tick ev).
    + destruct effect as (_ & _ & same & _).
      rewrite (kept w2 same), same. exact now.
    + destruct effect as (_ & _ & [same | gone]).
      * rewrite (kept w2 same), same. exact now.
      * rewrite handle, cleared in gone. left. split; [apply dead|]; exact gone.
Qed.

Lemma timers_of_call_session resource verbose getTime w es c :
  session resource verbose getTime es w = Some c -> timers_of_call w c.
Proof.
  unfold session.
  generalize (timers_of_call_start resource verbose getTime w).
  generalize (ensureAccessToken resource verbose getTime w).
  induction es as [|ev es IH]; cbn [run]; intros c0 start.
  - now intros [= <-].
  - destruct (deliver resource verbose ev c0) as [c1|] eqn:D; [|discriminate].
    apply IH. eapply timers_of_call_deliver; eauto.
Qed.

(** X3: in the session of one call, where the events delivered are those
    of that call and nothing else writes [this.interval] meanwhile, the
    timers that were live before the call stay live, with their periods
    and in their order: the live timers are those, and at most one more,
    the polling timer of the call itself. *)
Theorem foreign_timers_kept resource verbose getTime w es c :
  session resource verbose getTime es w = Some c ->
  timers (snd c) = timers w
  \/ exists ms, timers (snd c) = (timers w ++ [(fresh_timer (timers w), ms)])%list.
Proof.
  intros reach. apply timers_of_call_session in reach.
  unfold timers_of_call in reach.
  destruct (fst c) as [| | |t deviceCode n]; auto.
  destruct reach as (-> & _ & [[_ same] | [_ [ms own]]]); eauto.
Qed.

Lemma foreign_timers_kept_witness :
  let w := mkWorld (Service.mk false "" None None (-1)%float) (Some "app-id")
                   (Some 7) [(7, 250%float); (3, 1000%float)] Pending [] [] in
  exists c,
    session "https://graph.example.com" false clock
      [devicecode_ok device_code_abc; tick; poll_ok token_AT1] w = Some c
    /\ timers (snd c) = [(7, 250%float); (3, 1000%float)].
Proof.
  intros w. eexists. split; [reflexivity|].
  destruct (foreign_timers_kept "https://graph.example.com" false clock w
              [devicecode_ok device_code_abc; tick; poll_ok token_AT1] _ eq_refl)
    as [same | [ms own]].
  - exact same.
  - discriminate own.
Defined.

(** The session of one call is that far from two calls on one [Auth]
    object: [this.interval] is one field, written by each call that
    starts to poll (line 142) and read by [clearInterval] (lines 170 and
    181).  When a second call starts to poll before the first got its
    token, the token of the first clears the timer of the second, and the
    timer of the first stays live. *)
Example overlapping_calls_share_the_handle :
  let w := world_of (Service.disconnect
                       (Service.mk true "old" (Some "AT0") (Some "RT0") 2000%float)) in
  let first := devicecode_resolved false device_code_abc w in
  let second :=
    devicecode_resolved false (DeviceCode.mk 5%float "xyz" "go to url, enter UVW")
                        (snd first) in
  let w' := exec (poll_resolved false token_AT1) (snd second) in
  fst first = Polling 1 "abc" 0
  /\ fst second = Polling 2 "xyz" 0
  /\ timers (snd second) = [(1, 5000%float); (2, 5000%float)]
  /\ interval (snd second) = Some 2
  /\ timers w' = [(1, 5000%float)]
  /\ live 1 w' = true
  /\ live 2 w' = false.
Proof.
  repeat split.
Qed.

(** X4: once the timer of the call is cleared, the call sends nothing
    more: from a polling state whose timer is not live, no firing of the
    timer is delivered, the only events are the answers to the [n] polls
    still out, the requests sent stay as they are and the timer stays
    cleared. *)
Theorem no_poll_after_clear resource verbose getTime w es t deviceCode n w1 es' c' :
  session resource verbose getTime es w = Some (Polling t deviceCode n, w1) ->
  live t w1 = false ->
  run resource verbose es' (Polling t deviceCode n, w1) = Some c' ->
  network (snd c') = network w1
  /\ live t (snd c') = false
  /\ length es' <= n
  /\ tick_count es' = 0.
Proof.
  intros reach. apply timers_of_call_session in reach.
  unfold timers_of_call in reach. cbn [fst snd] in reach.
  destruct reach as (fresh & handle & _).
  revert n w1 handle. induction es' as [|ev es' IH]; intros n w1 handle dead;
    cbn [run].
  - intros [= <-]. cbn. repeat split; auto. lia.
  - destruct (deliver resource verbose ev (Polling t deviceCode n, w1))
      as [c1|] eqn:D; [|discriminate].
    apply deliver_polling in D as (n' & w2 & -> & _ & handle' & effect).
    unfold tick_count. cbn [filter].
    destruct (is_tick ev).
    + destruct effect as (alive & _). congruence.
    + destruct effect as (-> & sent & stay).
      assert (dead' : live t w2 = false).
      { unfold live in *. destruct stay as [-> | ->]; [exact dead|].
        rewrite handle. apply clear_not_live. }
      intros R. rewrite handle in handle'.
      destruct (IH n' w2 handle' dead' R) as (sent' & dead'' & short & none).
      cbn [length]. repeat split; auto; [congruence | lia].
Qed.

Lemma no_poll_after_clear_witness :
  let w := world_of (Service.disconnect
                       (Service.mk true "old" (Some "AT0") (Some "RT0") 2000%float)) in
  exists w1 c',
    session "https://graph.example.com" false clock
      [devicecode_ok device_code_abc; tick; tick; poll_ok token_AT1] w
    = Some (Polling 1 "abc" 1, w1)
    /\ live 1 w1 = false
    /\ run "https://graph.example.com" false [poll_failed authorization_pending]
         (Polling 1 "abc" 1, w1) = Some c'
    /\ network (snd c') = network w1.
Proof.
  intros w. do 2 eexists. split; [reflexivity|].
  split; [reflexivity|]. split; [reflexivity|].
  apply (no_poll_after_clear "https://graph.example.com" false clock w
           [devicecode_ok device_code_abc; tick; tick; poll_ok token_AT1]
           1 "abc" 1 _ [poll_failed authorization_pending] _
           eq_refl eq_refl eq_refl).
Defined.

(** X5: at the moment the promise of [ensureAccessToken] resolves --
    at once from the cache, on the answer to the refresh-token exchange,
    or on the answer to a poll -- the value it resolves with is a string,
    never [undefined], and it is the [accessToken] that the token store
    holds at that moment. *)
Theorem resolves_with_store_token resource verbose getTime w :
  (forall v,
      promise (snd (ensureAccessToken resource verbose getTime w)) = Resolved v ->
      v = Service.accessToken
            (service (snd (ensureAccessToken resource verbose getTime w)))
      /\ v <> None)
  /\ (forall es c ev c' v,
         session resource verbose getTime es w = Some c ->
         promise (snd c) = Pending ->
         deliver resource verbose ev c = Some c' ->
         promise (snd c') = Resolved v ->
         v = Service.accessToken (service (snd c')) /\ v <> None).
Proof.
  split.
  - intros v.
    destruct (still_valid getTime w) eqn:valid.
    + destruct (ensureAccessToken_cached resource verbose getTime w valid) as [out ->].
      cbn [snd promise service]. intros [= <-]. split; [reflexivity|].
      unfold still_valid in valid. apply andb_true_iff in valid as [_ defined].
      intros none. rewrite none in defined. discriminate.
    + destruct (JS.truthy (Service.refreshToken (service w))) eqn:set.
      * destruct (ensureAccessToken_refresh resource verbose getTime w valid set)
          as [out ->].
        discriminate.
      * destruct (ensureAccessToken_devicecode resource verbose getTime w valid set)
          as [out ->].
        discriminate.
  - intros es [a w1] ev c' v _ pending. cbn [snd] in pending.
    unfold deliver. cbn [fst snd].
    destruct a as [| | |t deviceCode n], ev; try discriminate.
    + intros [= <-]. unfold refresh_resolved.
      destruct verbose; run_monad in *; rewrite pending; run_monad;
        (intros [= <-]; split; [reflexivity | discriminate]).
    + intros [= <-]. unfold refresh_rejected.
      destruct verbose; run_monad in *; rewrite pending; run_monad; discriminate.
    + intros [= <-]. unfold devicecode_resolved.
      destruct verbose; run_monad in *; rewrite pending; discriminate.
    + intros [= <-]. unfold devicecode_rejected.
      run_monad in *; rewrite pending; run_monad; discriminate.
    + destruct (live t w1); [|discriminate].
      intros [= <-]. unfold interval_callback.
      destruct verbose; run_monad in *; rewrite pending; discriminate.
    + destruct n as [|n]; [discriminate|].
      intros [= <-]. unfold poll_resolved.
      destruct verbose; run_monad in *; rewrite pending; run_monad;
        (intros [= <-]; split; [reflexivity | discriminate]).
    + destruct n as [|n]; [discriminate|].
      intros [= <-]. unfold poll_rejected.
      destruct (negb (code rej2 =? "authorization_pending"));
        destruct verbose; run_monad in *; rewrite pending; run_monad; discriminate.
Qed.

Lemma resolves_with_store_token_witness :
  let w := world_of (Service.mk true "https://graph.example.com"
                                (Some "AT0") (Some "RT1") 900%float) in
  exists c',
    deliver "https://graph.example.com" false (refresh_ok token_AT1)
      (ensureAccessToken "https://graph.example.com" false clock w) = Some c'
    /\ promise (snd c') = Resolved (Some "AT1")
    /\ Some "AT1" = Service.accessToken (service (snd c')).
Proof.
  intros w. eexists. split; [reflexivity|]. split; [reflexivity|].
  apply (proj2 (resolves_with_store_token "https://graph.example.com" false clock w)
           [] (ensureAccessToken "https://graph.example.com" false clock w)
           (refresh_ok token_AT1) _ (Some "AT1") eq_refl eq_refl eq_refl eq_refl).
Defined.

(** X6: [getResourceFromUrl] returns a prefix of its argument; what it
    drops is nothing, or starts with the separator found at index 8 or
    later.  So the first 8 code units are always kept, and a string of at
    most 8 code units -- the empty string too -- comes back unchanged. *)
Theorem getResourceFromUrl_prefix (url : string) :
  (exists rest,
      url = getResourceFromUrl url ++ rest
      /\ (rest = ""
          \/ (8 <= String.length (getResourceFromUrl url)
              /\ exists rest', rest = String "/" rest')))
  /\ (String.length url <= 8 -> getResourceFromUrl url = url).
Proof.
  assert (split_at : forall n s, s = JS.take n s ++ JS.drop n s).
  { induction n as [|n IH]; intros [|ch s]; cbn; try reflexivity.
    f_equal. apply IH. }
  assert (dropped : forall n s, String.length (JS.drop n s) + Nat.min n (String.length s)
                                = String.length s).
  { induction n as [|n IH]; intros [|ch s]; cbn; try lia.
    specialize (IH s). lia. }
  assert (found : forall s i k,
             JS.scan "/" s i = Some k ->
             exists j rest', k = i + j /\ JS.drop j s = String "/" rest'
                             /\ j < String.length s).
  { induction s as [|ch s IH]; intros i k; cbn [JS.scan].
    - cbn. discriminate.
    - destruct (String.prefix "/" (String ch s)) eqn:E.
      + intros [= <-]. apply prefix_slash in E as [rest' E].
        exists 0, rest'. cbn [JS.drop]. rewrite E. cbn. repeat split; lia.
      + intros H. apply IH in H as (j & rest' & -> & D & lt).
        exists (S j), rest'. cbn. repeat split; auto; lia. }
  assert (drop_drop : forall n j s, JS.drop j (JS.drop n s) = JS.drop (n + j) s).
  { induction n as [|n IH]; intros j [|ch s]; cbn; try reflexivity.
    - destruct j; reflexivity.
    - apply IH. }
  pose proof (getResourceFromUrl_scan url) as shape. cbv zeta in shape.
  destruct (JS.scan "/" (JS.drop (Nat.min 8 (String.length url)) url)
                    (Nat.min 8 (String.length url))) as [k|] eqn:E.
  - apply found in E as (j & rest' & -> & D & lt).
    rewrite drop_drop in D.
    pose proof (dropped (Nat.min 8 (String.length url)) url) as len.
    split.
    + exists (JS.drop (Nat.min 8 (String.length url) + j) url).
      rewrite shape. split; [apply split_at|].
      right. rewrite length_take. split; [lia|]. eauto.
    + intros short. exfalso. lia.
  - rewrite shape. split.
    + exists "". split; [|auto].
      clear. induction url as [|ch s IH]; cbn; [reflexivity | now rewrite <- IH].
    + reflexivity.
Qed.

Lemma getResourceFromUrl_prefix_witness :
  String.length "a/b/c/d/" <= 8 /\ getResourceFromUrl "a/b/c/d/" = "a/b/c/d/".
Proof.
  split; [cbn; lia|].
  apply (proj2 (getResourceFromUrl_prefix "a/b/c/d/")). cbn. lia.
Defined.

(* ===================================================================== *)
(** ** The command [spo tenant cdn get] *)
(* ===================================================================== *)

(** X7: [validate] accepts exactly a missing or empty [type], ["Public"]
    and ["Private"]; it never answers [false]; and any other [type] gets
    the message that starts with that [type]. *)
Theorem validate_accepts (args : CommandArgs.t) :
  let type := Options.type (CommandArgs.options args) in
  (validate args = inl true
   <-> type = None \/ type = Some "" \/ type = Some "Public" \/ type = Some "Private")
  /\ validate args <> inl false
  /\ (forall message,
         validate args = inr message ->
         exists ty,
           type = Some ty
           /\ message = ty ++ " is not a valid CDN type. Allowed values are Public|Private").
Proof.
  destruct args as [[verbose type]]. cbn [CommandArgs.options Options.type].
  unfold validate. cbn [CommandArgs.options Options.type].
  destruct type as [[|ch ty]|]; cbn [JS.truthy].
  - repeat split; auto; discriminate.
  - cbn [is_string JS.show].
    destruct (String.eqb_spec (String ch ty) "Public") as [->|not_public];
      [|destruct (String.eqb_spec (String ch ty) "Private") as [->|not_private]];
      cbn [negb andb].
    + repeat split; auto; discriminate.
    + repeat split; auto; discriminate.
    + split; [split; [discriminate|]|split; [discriminate|]].
      * intros [none | [empty | [public | private]]]; congruence.
      * intros message [= <-]. eauto.
  - repeat split; auto; discriminate.
Qed.

Lemma validate_accepts_witness :
  exists ty,
    Some "private" = Some ty
    /\ "private is not a valid CDN type. Allowed values are Public|Private"
       = ty ++ " is not a valid CDN type. Allowed values are Public|Private".
Proof.
  apply (proj2 (proj2 (validate_accepts
                         (CommandArgs.mk (Options.mk None (Some "private")))))).
  reflexivity.
Defined.

(** For accepted arguments both names of the CDN are the type asked for. *)
Lemma validated_names (args : CommandArgs.t) :
  validate args = inl true ->
  name_at_91 (cdnType_of args) = cdnTypeString_of args
  /\ name_at_124 (cdnType_of args) = cdnTypeString_of args.
Proof.
  destruct args as [[verbose [[|ch ty]|]]]; unfold validate, cdnType_of,
    cdnTypeString_of; cbn [CommandArgs.options Options.type JS.truthy JS.show is_string];
    try (intros _; split; reflexivity).
  destruct (String.eqb_spec (String ch ty) "Public") as [->|not_public];
    [intros _; split; reflexivity|].
  destruct (String.eqb_spec (String ch ty) "Private") as [->|not_private];
    [intros _; split; reflexivity|].
  discriminate.
Qed.

(** X8: for arguments that [validate] accepts, the CDN that the action
    queries is the one that was asked for: [cdnType] is 1 exactly for
    ["Private"] and 0 otherwise, and the name written at line 91, the
    name written at line 124 and the name given to the telemetry are one
    and the same, ["Public"] when no type was given. *)
Theorem validated_type_is_queried (args : CommandArgs.t) :
  validate args = inl true ->
  (cdnType_of args = 1 <-> Options.type (CommandArgs.options args) = Some "Private")
  /\ (cdnType_of args = 0 <-> Options.type (CommandArgs.options args) <> Some "Private")
  /\ name_at_91 (cdnType_of args) = cdnTypeString_of args
  /\ name_at_124 (cdnType_of args) = cdnTypeString_of args
  /\ (cdnTypeString_of args = "Public" \/ cdnTypeString_of args = "Private").
Proof.
  intros valid.
  apply (proj1 (validate_accepts args)) in valid.
  destruct args as [[verbose type]]. cbn [CommandArgs.options Options.type] in *.
  unfold cdnType_of, cdnTypeString_of. cbn [CommandArgs.options Options.type].
  destruct valid as [-> | [-> | [-> | ->]]]; cbn;
    repeat split; auto; try discriminate; try congruence.
Qed.

Lemma validated_type_is_queried_witness :
  cdnType_of (CommandArgs.mk (Options.mk (Some true) (Some "Private"))) = 1
  /\ name_at_124 (cdnType_of (CommandArgs.mk (Options.mk (Some true) (Some "Private"))))
     = "Private".
Proof.
  destruct (validated_type_is_queried
              (CommandArgs.mk (Options.mk (Some true) (Some "Private"))) eq_refl)
    as (private & _ & _ & name & _).
  split; [apply private; reflexivity | exact name].
Defined.

(** X9: when the site is not connected, or is connected but is not a
    tenant admin site, the action gives up at once: it writes the one
    line that says so, calls [cb] once, sends no request, does not call
    [ensureAccessToken] (the store, the promise and the timers are as
    they were), and nothing that happens later reaches it.  The telemetry
    event is tracked all the same. *)
Theorem action_refuses env args getTime s :
  Site.connected (site s) = false \/ Env.isTenantAdminSite env (site s) = false ->
  exists s',
    action env args getTime s = ((Completed, Nothing), s')
    /\ sink s'
       = (sink s
          ++ [logged (log_text
                (if Site.connected (site s)
                 then [str (Site.url (site s));
                       str " is not a tenant admin site. Connect to your tenant admin site and try again"]
                 else [str "Connect to a SharePoint Online tenant admin site first"]))])%list
    /\ cb_calls s' = S (cb_calls s)
    /\ network (auth s') = network (auth s)
    /\ service (auth s') = service (auth s)
    /\ promise (auth s') = promise (auth s)
    /\ timers (auth s') = timers (auth s)
    /\ tracked s'
       = (tracked s
          ++ [TrackedEvent.mk (Env.TENANT_CDN_GET env)
                [("cdnType", cdnTypeString_of args);
                 ("verbose", JS.show_bool (verbose_of args))]])%list
    /\ forall hs r, command env args getTime hs s = Some r -> hs = [].
Proof.
  intros refused.
  assert (no_more : forall s' hs r,
             happenings env args (Service.resource (service (auth s))) hs
               (Completed, Nothing, s') = Some r -> hs = []).
  { intros s' [|h hs] r; [reflexivity|]. cbn [happenings].
    unfold happen. cbn [fst snd].
    destruct h as [ev| | | |]; discriminate. }
  unfold command, action.
  destruct (Site.connected (site s)) eqn:connected.
  - destruct refused as [|not_admin]; [discriminate|].
    run_command in *. rewrite connected, not_admin. run_command.
    eexists. split; [reflexivity|]. cbn [negb].
    rewrite app_nil_r. repeat split; eauto.
  - run_command in *. rewrite connected. run_command.
    eexists. split; [reflexivity|]. cbn [negb].
    rewrite app_nil_r. repeat split; eauto.
Qed.

Lemma action_refuses_witness :
  let env := Env.mk "spo tenant cdn get" "o365" (fun _ => true) (fun s => s)
                    (fun _ => "error") (fun _ => None) in
  let s := mkShell (world_of (Service.disconnect
                                (Service.mk true "" None None 0%float)))
                   (Site.mk false "" "") [] [] 0 in
  exists s',
    action env (CommandArgs.mk (Options.mk None None)) clock s
    = ((Completed, Nothing), s')
    /\ sink s'
       = [logged (log_text
                    [str "Connect to a SharePoint Online tenant admin site first"])]
    /\ cb_calls s' = 1
    /\ network (auth s') = [].
Proof.
  intros env s.
  destruct (action_refuses env (CommandArgs.mk (Options.mk None None)) clock s
              (or_introl eq_refl))
    as (s' & A & line & once & sent & _).
  exists s'. auto.
Defined.

(** The effect of the handlers of the chain on the count of callbacks. *)
Lemma on_error_cb env err s :
  cb_calls (snd (on_error env err s)) = S (cb_calls s).
Proof.
  unfold on_error. run_command. reflexivity.
Qed.

Lemma on_token_cb verbose accessToken s :
  cb_calls (snd (on_token verbose accessToken s)) = cb_calls s.
Proof.
  unfold on_token. destruct verbose; run_command; reflexivity.
Qed.

Lemma on_contextinfo_cb env verbose cdnType res s :
  cb_calls (snd (on_contextinfo env verbose cdnType res s)) = cb_calls s.
Proof.
  unfold on_contextinfo. destruct verbose; run_command; reflexivity.
Qed.

Lemma on_result_cb env verbose cdnType res s :
  cb_calls (snd (on_result env verbose cdnType res s))
  = cb_calls s + completed (fst (on_result env verbose cdnType res s))
  /\ (fst (on_result env verbose cdnType res s) = Completed
      \/ fst (on_result env verbose cdnType res s) = Threw)
  /\ (fst (on_result env verbose cdnType res s) = Threw
      <-> unreadable (Env.JSON_parse env res) = true).
Proof.
  unfold on_result, unreadable.
  destruct (Env.JSON_parse env res) as [[|[| |[ErrorMessage|]| |] json]|];
    destruct verbose; run_command; cbn [completed];
    repeat split; auto; try discriminate; lia.
Qed.

Lemma on_settled_cb env verbose s :
  cb_calls (snd (on_settled env verbose s))
  = cb_calls s + completed (fst (on_settled env verbose s))
  /\ (fst (on_settled env verbose s) = Authenticating
      <-> promise (auth s) = Pending)
  /\ (fst (on_settled env verbose s) = Authenticating ->
      snd (on_settled env verbose s) = s).
Proof.
  unfold on_settled. destruct (promise (auth s)) as [|v|err]; cbn [fst snd completed].
  - repeat split; auto; lia.
  - rewrite on_token_cb. repeat split; try discriminate; lia.
  - rewrite on_error_cb. repeat split; try discriminate; lia.
Qed.

Lemma happen_cb env args resource h stage a s r' :
  happen env args resource h (stage, a, s) = Some r' ->
  cb_calls (snd r') + completed stage = cb_calls s + completed (fst (fst r')).
Proof.
  unfold happen. cbn [fst snd].
  destruct h as [ev|res|err|res|err].
  - destruct (deliver resource (verbose_of args) ev (a, auth s)) as [[a' w]|];
      [|discriminate].
    destruct stage; try (intros [= <-]; reflexivity).
    pose proof (on_settled_cb env (verbose_of args) (with_auth w s)) as (count & _).
    destruct (on_settled env (verbose_of args) (with_auth w s)) as [stage' s'].
    intros [= <-].
    change (cb_calls s' + 0 = cb_calls s + completed stage').
    change (cb_calls s' = cb_calls s + completed stage') in count. lia.
  - destruct stage; try discriminate. intros [= <-].
    change (cb_calls (snd (on_contextinfo env (verbose_of args) (cdnType_of args)
                             res s)) + 0 = cb_calls s + 0).
    rewrite on_contextinfo_cb. lia.
  - destruct stage; try discriminate. intros [= <-].
    change (cb_calls (snd (on_error env err s)) + 0 = cb_calls s + 1).
    rewrite on_error_cb. lia.
  - destruct stage; try discriminate.
    pose proof (on_result_cb env (verbose_of args) (cdnType_of args) res s)
      as (count & _).
    destruct (on_result env (verbose_of args) (cdnType_of args) res s)
      as [stage' s'].
    intros [= <-].
    change (cb_calls s' + 0 = cb_calls s + completed stage').
    change (cb_calls s' = cb_calls s + completed stage') in count. lia.
  - destruct stage; try discriminate. intros [= <-].
    change (cb_calls (snd (on_error env err s)) + 0 = cb_calls s + 1).
    rewrite on_error_cb. lia.
Qed.

Lemma happenings_cb env args resource hs :
  forall r r',
    happenings env args resource hs r = Some r' ->
    cb_calls (snd r') + completed (fst (fst r))
    = cb_calls (snd r) + completed (fst (fst r')).
Proof.
  induction hs as [|h hs IH]; intros r r'; cbn [happenings].
  - now intros [= <-].
  - destruct (happen env args resource h r) as [r1|] eqn:H; [|discriminate].
    intros R. apply IH in R.
    destruct r as [[stage a] s]. apply happen_cb in H. cbn [fst snd] in *. lia.
Qed.

Lemma action_cb env args getTime s :
  cb_calls (snd (action env args getTime s))
  = cb_calls s + completed (fst (fst (action env args getTime s))).
Proof.
  unfold action.
  destruct (Site.connected (site s)) eqn:connected;
    [destruct (Env.isTenantAdminSite env (site s)) eqn:admin|];
    run_command in *; rewrite connected; cbn [negb]; run_command;
    rewrite ?admin; cbn [negb]; run_command; cbn [completed]; try lia.
  match goal with
  | |- context [ensureAccessToken ?r ?v ?t ?w] =>
      destruct (ensureAccessToken r v t w) as [a w']
  end.
  match goal with
  | |- context [on_settled ?e ?v ?x] =>
      pose proof (on_settled_cb e v x) as (count & _);
      destruct (on_settled e v x) as [stage s']
  end.
  exact count.
Qed.

(** X10: the action calls [cb] exactly once, and exactly when the chain
    has completed -- by a refusal, by an answer that was read, or by a
    failure.  At any point of any run the count of calls is the count
    before plus one if the chain has completed and plus nothing
    otherwise; [cb] is not called twice, and it is not called when the
    last handler threw. *)
Theorem cb_exactly_once env args getTime hs s stage a s' :
  command env args getTime hs s = Some (stage, a, s') ->
  cb_calls s' = cb_calls s + completed stage.
Proof.
  unfold command.
  pose proof (action_cb env args getTime s) as start.
  destruct (action env args getTime s) as [[stage0 a0] s0].
  cbn [fst snd] in start.
  intros R. apply happenings_cb in R. cbn [fst snd] in R. lia.
Qed.

Lemma cb_exactly_once_witness :
  option_map (fun r => (fst (fst r), cb_calls (snd r)))
    (command env_enabled no_options clock
       [contextinfo_ok (ContextInfo.mk "digest"); query_ok "[{},true]"]
       shell_connected)
  = Some (Completed, 1)
  /\ option_map (fun r => (fst (fst r), cb_calls (snd r)))
       (command env_unparsed no_options clock
          [contextinfo_ok (ContextInfo.mk "digest"); query_ok "not json"]
          shell_connected)
     = Some (Threw, 0).
Proof.
  split.
  - assert (stage_is : option_map (fun r => fst (fst r))
                         (command env_enabled no_options clock
                            [contextinfo_ok (ContextInfo.mk "digest");
                             query_ok "[{},true]"] shell_connected)
                       = Some Completed) by (vm_compute; reflexivity).
    destruct (command env_enabled no_options clock
                [contextinfo_ok (ContextInfo.mk "digest"); query_ok "[{},true]"]
                shell_connected) as [[[stage a] s']|] eqn:E; [|discriminate].
    injection stage_is as ->.
    cbn [option_map fst snd]. f_equal. f_equal.
    exact (cb_exactly_once env_enabled no_options clock _ shell_connected
             Completed a s' E).
  - assert (stage_is : option_map (fun r => fst (fst r))
                         (command env_unparsed no_options clock
                            [contextinfo_ok (ContextInfo.mk "digest");
                             query_ok "not json"] shell_connected)
                       = Some Threw) by (vm_compute; reflexivity).
    destruct (command env_unparsed no_options clock
                [contextinfo_ok (ContextInfo.mk "digest"); query_ok "not json"]
                shell_connected) as [[[stage a] s']|] eqn:E; [|discriminate].
    injection stage_is as ->.
    cbn [option_map fst snd]. f_equal. f_equal.
    exact (cb_exactly_once env_unparsed no_options clock _ shell_connected
             Threw a s' E).
Defined.

(** What an event does to a call whose promise is pending: the promise
    stays pending, or resolves with the access token of the store, or is
    rejected with the failure of the event; an event that settles it
    sends nothing. *)
Lemma deliver_settles resource verbose ev a w1 a' w2 :
  promise w1 = Pending ->
  deliver resource verbose ev (a, w1) = Some (a', w2) ->
  (promise w2 = Pending /\ failure ev = None)
  \/ (exists tok,
         promise w2 = Resolved (Some tok)
         /\ Service.accessToken (service w2) = Some tok
         /\ network w2 = network w1
         /\ failure ev = None)
  \/ (exists err,
         promise w2 = Rejected err
         /\ failure ev = Some err
         /\ network w2 = network w1).
Proof.
  intros pending. unfold deliver. cbn [fst snd].
  destruct a as [| | |t deviceCode n], ev; try discriminate.
  - intros [= <- <-]. unfold refresh_resolved. right. left.
    exists (Token.access_token json).
    destruct verbose; run_monad in *; rewrite pending; run_monad; auto.
  - intros [= <- <-]. unfold refresh_rejected. right. right.
    exists (any_string (code json)).
    destruct verbose; run_monad in *; rewrite pending; run_monad; auto.
  - intros D. unfold devicecode_resolved in D. left.
    destruct verbose; run_monad in *; injection D as <- <-; auto.
  - intros [= <- <-]. unfold devicecode_rejected. right. right.
    exists err. run_monad in *; rewrite pending; run_monad; auto.
  - destruct (live t w1); [|discriminate].
    intros [= <- <-]. unfold interval_callback. left.
    destruct verbose; run_monad in *; auto.
  - destruct n as [|n]; [discriminate|].
    intros [= <- <-]. unfold poll_resolved. right. left.
    exists (Token.access_token json).
    destruct verbose; run_monad in *; rewrite pending; run_monad; auto.
  - destruct n as [|n]; [discriminate|].
    intros [= <- <-]. unfold poll_rejected. cbn [failure].
    destruct (code rej2 =? "authorization_pending"); cbn [negb].
    + left. destruct verbose; run_monad in *; auto.
    + right. right. exists (any_string (code rej2)).
      destruct verbose; run_monad in *; rewrite pending; run_monad; auto.
Qed.

(** The effect of the handlers of the chain on the shell. *)
Lemma on_error_effect env err s :
  sink (snd (on_error env err s))
  = (sink s
     ++ [logged (log_text [str (Env.red env ("Error: " ++ String_of env err))])])%list
  /\ network (auth (snd (on_error env err s))) = network (auth s)
  /\ service (auth (snd (on_error env err s))) = service (auth s)
  /\ site (snd (on_error env err s)) = site s.
Proof.
  unfold on_error. run_command. cbn [map]. rewrite app_nil_r. auto.
Qed.

Lemma on_token_effect verbose accessToken s :
  network (auth (snd (on_token verbose accessToken s)))
  = (network (auth s)
     ++ [POST (contextinfo_options (Site.url (site s)) accessToken)])%list
  /\ service (auth (snd (on_token verbose accessToken s))) = service (auth s)
  /\ promise (auth (snd (on_token verbose accessToken s))) = promise (auth s)
  /\ site (snd (on_token verbose accessToken s)) = site s.
Proof.
  unfold on_token. destruct verbose; run_command; auto.
Qed.

Lemma on_contextinfo_effect env verbose cdnType res s :
  network (auth (snd (on_contextinfo env verbose cdnType res s)))
  = (network (auth s)
     ++ [POST (query_options env (site s) (Service.accessToken (service (auth s)))
                             res cdnType)])%list
  /\ service (auth (snd (on_contextinfo env verbose cdnType res s))) = service (auth s)
  /\ promise (auth (snd (on_contextinfo env verbose cdnType res s)))
     = promise (auth s)
  /\ site (snd (on_contextinfo env verbose cdnType res s)) = site s.
Proof.
  unfold on_contextinfo. destruct verbose; run_command; auto.
Qed.

(** While the chain waits for the token, the promise is pending. *)
Lemma happen_authenticating env args resource h r a' s' :
  happen env args resource h r = Some (Authenticating, a', s') ->
  promise (auth s') = Pending.
Proof.
  destruct r as [[stage a] s]. unfold happen. cbn [fst snd].
  destruct h as [ev|res|err|res|err].
  - destruct (deliver resource (verbose_of args) ev (a, auth s)) as [[a1 w]|];
      [|discriminate].
    destruct stage; try discriminate.
    pose proof (on_settled_cb env (verbose_of args) (with_auth w s))
      as (_ & pending & same).
    destruct (on_settled env (verbose_of args) (with_auth w s)) as [stage' s1].
    intros [= -> <- <-]. cbn [fst snd] in *.
    rewrite (same eq_refl). apply pending. reflexivity.
  - destruct stage; discriminate.
  - destruct stage; discriminate.
  - destruct stage; try discriminate.
    pose proof (on_result_cb env (verbose_of args) (cdnType_of args) res s)
      as (_ & [done | threw] & _);
      destruct (on_result env (verbose_of args) (cdnType_of args) res s)
        as [stage' s1]; cbn [fst] in *; subst stage'; discriminate.
  - destruct stage; discriminate.
Qed.

Lemma action_authenticating env args getTime s a s' :
  action env args getTime s = ((Authenticating, a), s') ->
  promise (auth s') = Pending.
Proof.
  unfold action.
  destruct (Site.connected (site s)) eqn:connected;
    [destruct (Env.isTenantAdminSite env (site s)) eqn:admin|];
    run_command in *; rewrite connected; cbn [negb]; run_command;
    rewrite ?admin; cbn [negb]; run_command; try discriminate.
  match goal with
  | |- context [ensureAccessToken ?r ?v ?t ?w] =>
      destruct (ensureAccessToken r v t w) as [a0 w']
  end.
  match goal with
  | |- context [on_settled ?e ?v ?x] =>
      pose proof (on_settled_cb e v x) as (_ & pending & same);
      destruct (on_settled e v x) as [stage s1]
  end.
  intros [= -> <- <-]. cbn [fst snd] in *.
  rewrite (same eq_refl). apply pending. reflexivity.
Qed.

Lemma command_authenticating env args getTime hs s a s1 :
  command env args getTime hs s = Some (Authenticating, a, s1) ->
  promise (auth s1) = Pending.
Proof.
  unfold command.
  pose proof (action_authenticating env args getTime s) as start.
  destruct (action env args getTime s) as [[stage0 a0] s0].
  assert (first : fst (fst (stage0, a0, s0)) = Authenticating ->
                  promise (auth (snd (stage0, a0, s0))) = Pending).
  { cbn [fst snd]. intros ->. now apply (start a0 s0). }
  clear start. revert first.
  generalize (stage0, a0, s0). clear stage0 a0 s0.
  induction hs as [|h hs IH]; intros r first; cbn [happenings].
  - intros [= ->]. now apply first.
  - destruct (happen env args (Service.resource (service (auth s))) h r)
      as [[[stage1 a1] s1']|] eqn:H; [|discriminate].
    apply IH. cbn [fst snd]. intros ->.
    eapply happen_authenticating; eauto.
Qed.

(** X11: whatever fails in the chain -- [ensureAccessToken] rejects, the
    request for the form digest is rejected, or the query is rejected --
    the command writes [Error: ] and the failure, in red, as the last
    line, calls [cb], and sends no further request.  A failure that is a
    string, as the error codes of [ensureAccessToken] are, is written as
    it is. *)
Theorem failure_is_reported env args getTime hs s stage a s1 h err r' :
  command env args getTime hs s = Some (stage, a, s1) ->
  chain_failure stage h = Some err ->
  happen env args (Service.resource (service (auth s))) h (stage, a, s1) = Some r' ->
  fst (fst r') = Completed
  /\ (exists before,
         sink (snd r')
         = (before
            ++ [logged (log_text
                          [str (Env.red env ("Error: " ++ String_of env err))])])%list)
  /\ network (auth (snd r')) = network (auth s1)
  /\ cb_calls (snd r') = S (cb_calls s1)
  /\ (forall code, err = any_string code -> String_of env err = code).
Proof.
  intros reach fails.
  assert (reported : forall s0,
             network (auth s0) = network (auth s1) ->
             cb_calls s0 = cb_calls s1 ->
             fst (fst (Completed, a, snd (on_error env err s0))) = Completed
             /\ (exists before,
                    sink (snd (Completed, a, snd (on_error env err s0)))
                    = (before
                       ++ [logged (log_text
                             [str (Env.red env ("Error: " ++ String_of env err))])])%list)
             /\ network (auth (snd (Completed, a, snd (on_error env err s0))))
                = network (auth s1)
             /\ cb_calls (snd (Completed, a, snd (on_error env err s0)))
                = S (cb_calls s1)
             /\ (forall code, err = any_string code -> String_of env err = code)).
  { intros s0 sent calls. cbn [fst snd].
    destruct (on_error_effect env err s0) as (line & sent' & _).
    rewrite on_error_cb, sent', line, <- sent, calls.
    repeat split; eauto. intros code ->. reflexivity. }
  unfold happen. cbn [fst snd].
  destruct stage, h as [ev|res|err'|res|err']; cbn in fails; try discriminate fails.
  - (* the token *)
    apply command_authenticating in reach.
    destruct (deliver (Service.resource (service (auth s))) (verbose_of args) ev
                      (a, auth s1)) as [[a' w]|] eqn:D; [|discriminate].
    destruct (deliver_settles _ _ _ _ _ _ _ reach D)
      as [[_ none] | [(tok & _ & _ & _ & none) | (err' & rejected & same & sent)]];
      try congruence.
    assert (err' = err) by congruence. subst err'.
    unfold on_settled. cbn [with_auth auth]. rewrite rejected.
    intros [= <-].
    destruct (reported (with_auth w s1) sent eq_refl) as (? & ? & ? & ? & ?).
    repeat split; auto.
  - injection fails as <-. intros [= <-]. now apply reported.
  - injection fails as <-. intros [= <-]. now apply reported.
Qed.

Lemma failure_is_reported_witness :
  exists r',
    happen env_enabled no_options "https://contoso-admin.sharepoint.com"
      (of_auth (refresh_failed invalid_grant))
      (Authenticating, RefreshAnswer,
       snd (action env_enabled no_options clock shell_expired))
    = Some r'
    /\ fst (fst r') = Completed
    /\ cb_calls (snd r') = 1
    /\ String_of env_enabled (any_string "invalid_grant") = "invalid_grant".
Proof.
  eexists. split; [reflexivity|].
  destruct (failure_is_reported env_enabled no_options clock [] shell_expired
              Authenticating RefreshAnswer
              (snd (action env_enabled no_options clock shell_expired))
              (of_auth (refresh_failed invalid_grant))
              (any_string "invalid_grant") _ eq_refl eq_refl eq_refl)
    as (done & _ & _ & once & plain).
  split; [exact done|]. split; [exact once|]. exact (plain _ eq_refl).
Defined.

(** X12: the two requests of the command carry the same bearer token
    when the answer with the form digest is the first thing to arrive
    after the token.  When an event resolves [ensureAccessToken] and the
    form digest follows, the requests sent are the POST to
    [/_api/contextinfo] and the POST to [ProcessQuery], in this order and
    nothing else, the first with the token the call resolved with, the
    second with the token the store holds and the digest of the answer:
    one token.  So it is when the token of the store is still valid and
    no event is needed at all. *)
Theorem requests_share_the_token env args getTime s res :
  (forall hs a s1 ev r2,
      command env args getTime hs s = Some (Authenticating, a, s1) ->
      happenings env args (Service.resource (service (auth s)))
        [of_auth ev; contextinfo_ok res] (Authenticating, a, s1) = Some r2 ->
      exists tok,
        promise (auth (snd r2)) = Resolved (Some tok)
        /\ fst (fst r2) = QueryAnswer
        /\ network (auth (snd r2))
           = (network (auth s1)
              ++ [POST (contextinfo_options (Site.url (site s1)) (Some tok));
                  POST (query_options env (site s1) (Some tok) res
                                      (cdnType_of args))])%list)
  /\ (Site.connected (site s) = true ->
      Env.isTenantAdminSite env (site s) = true ->
      still_valid getTime (auth s) = true ->
      exists tok r2,
        Service.accessToken (service (auth s)) = Some tok
        /\ command env args getTime [contextinfo_ok res] s = Some r2
        /\ fst (fst r2) = QueryAnswer
        /\ network (auth (snd r2))
           = (network (auth s)
              ++ [POST (contextinfo_options (Site.url (site s)) (Some tok));
                  POST (query_options env (site s) (Some tok) res
                                      (cdnType_of args))])%list).
Proof.
  split.
  - intros hs a s1 ev r2 reach. apply command_authenticating in reach.
    cbn [happenings].
    destruct (happen env args (Service.resource (service (auth s))) (of_auth ev)
                     (Authenticating, a, s1)) as [[[stage1 a1] s2]|] eqn:H1;
      [|discriminate].
    destruct (happen env args (Service.resource (service (auth s)))
                     (contextinfo_ok res) (stage1, a1, s2)) as [r|] eqn:H2;
      [|discriminate].
    intros [= <-].
    unfold happen in H1. cbn [fst snd] in H1.
    destruct (deliver (Service.resource (service (auth s))) (verbose_of args) ev
                      (a, auth s1)) as [[a' w]|] eqn:D; [|discriminate].
    unfold happen in H2. cbn [fst snd] in H2.
    unfold on_settled in H1. cbn [with_auth auth] in H1.
    destruct (deliver_settles _ _ _ _ _ _ _ reach D)
      as [[pending _] | [(tok & resolved & held & sent & _)
                        | (err & rejected & _)]].
    + rewrite pending in H1. injection H1 as <- <- <-. discriminate.
    + rewrite resolved in H1. injection H1 as <- <- <-.
      injection H2 as <-. exists tok. cbn [fst snd].
      destruct (on_token_effect (verbose_of args) (Some tok) (with_auth w s1))
        as (sent1 & store1 & promise1 & site1).
      destruct (on_contextinfo_effect env (verbose_of args) (cdnType_of args) res
                  (snd (on_token (verbose_of args) (Some tok) (with_auth w s1))))
        as (sent2 & store2 & promise2 & site2).
      rewrite promise2, promise1, sent2, sent1, store1, site1.
      cbn [with_auth auth site]. rewrite resolved, held, sent, <- app_assoc.
      repeat split.
    + rewrite rejected in H1. injection H1 as <- <- <-. discriminate.
  - intros connected admin valid.
    assert (defined : exists tok, Service.accessToken (service (auth s)) = Some tok).
    { unfold still_valid in valid. apply andb_true_iff in valid as [_ defined].
      destruct (Service.accessToken (service (auth s))) as [tok|];
        [eauto | discriminate]. }
    destruct defined as [tok held]. exists tok.
    destruct (ensureAccessToken_cached (Service.resource (service (auth s)))
                (verbose_of args) getTime (auth s) valid) as [out cached].
    rewrite held in cached.
    unfold command, action.
    run_command in *. rewrite connected. cbn [negb]. run_command.
    rewrite admin. cbn [negb]. run_command. rewrite cached.
    unfold on_settled. run_command.
    match goal with
    | |- context [on_token ?v ?t ?x] =>
        destruct (on_token_effect v t x) as (sent1 & store1 & promise1 & site1);
        destruct (on_token v t x) as [[] s1]
    end.
    cbn [happenings]. unfold happen. cbn [fst snd].
    exists (QueryAnswer, Nothing,
            snd (on_contextinfo env (verbose_of args) (cdnType_of args) res s1)).
    split; [exact held|]. split; [reflexivity|]. split; [reflexivity|].
    destruct (on_contextinfo_effect env (verbose_of args) (cdnType_of args) res s1)
      as (sent2 & _).
    run_command in *.
    rewrite sent2, sent1, store1, site1, held, <- app_assoc. reflexivity.
Qed.

Lemma requests_share_the_token_witness :
  exists tok r2,
    Service.accessToken (service (auth shell_connected)) = Some tok
    /\ command env_enabled no_options clock
         [contextinfo_ok (ContextInfo.mk "digest")] shell_connected = Some r2
    /\ fst (fst r2) = QueryAnswer
    /\ network (auth (snd r2))
       = [POST (contextinfo_options "https://contoso-admin.sharepoint.com" (Some tok));
          POST (query_options env_enabled admin_site (Some tok)
                              (ContextInfo.mk "digest") 0)].
Proof.
  exact (proj2 (requests_share_the_token env_enabled no_options clock
                  shell_connected (ContextInfo.mk "digest"))
               eq_refl eq_refl eq_refl).
Defined.

(** The second request reads the store when it leaves.  A token that
    the answer to an earlier poll brings in between is the one it
    carries, while the first request went with the token the call
    resolved with. *)
Example second_request_reads_the_store :
  let s := mkShell (world_of (Service.mk true "https://contoso-admin.sharepoint.com"
                                         (Some "") None (-1)%float))
                   admin_site [] [] 0 in
  option_map (fun r => map (fun q => match q with
                                     | POST o => nth 0 (RequestOptions.headers o) ("", "")
                                     | GET o => ("", "")
                                     end)
                           (skipn 3 (network (auth (snd r)))))
    (command env_enabled no_options clock
       [of_auth (devicecode_ok device_code_abc); of_auth tick; of_auth tick;
        of_auth (poll_ok token_AT1);
        of_auth (poll_ok (Token.mk "AT2" "RT2" 4700%float));
        contextinfo_ok (ContextInfo.mk "digest")] s)
  = Some [("authorization", "Bearer AT1"); ("authorization", "Bearer AT2")].
Proof.
  vm_compute. reflexivity.
Qed.

(** Once the chain has come to its end, it stays there. *)
Lemma happenings_ended env args resource hs :
  forall stage a s r',
    stage = Completed \/ stage = Threw ->
    happenings env args resource hs (stage, a, s) = Some r' ->
    fst (fst r') = stage.
Proof.
  induction hs as [|h hs IH]; intros stage a s r' ended; cbn [happenings].
  - now intros [= <-].
  - destruct (happen env args resource h (stage, a, s)) as [[[stage1 a1] s1]|] eqn:H;
      [|discriminate].
    assert (stage1 = stage).
    { unfold happen in H. cbn [fst snd] in H.
      destruct h as [ev|res|err|res|err];
        destruct ended as [-> | ->]; try discriminate;
        destruct (deliver resource (verbose_of args) ev (a, auth s)) as [[a' w]|];
        try discriminate; now injection H. }
    subst stage1. now apply IH.
Qed.

(** X13: the answer to the query decides whether the command ever calls
    back.  If [JSON.parse] throws on it, or gives an empty array, or an
    array that starts with [null], the last handler throws: the chain
    ends there and [cb] is not called, whatever happens afterwards.
    Any other answer completes the chain with the one call of [cb]. *)
Theorem answer_decides_the_callback env args getTime hs s a s1 res hs' stage a' s2 :
  command env args getTime hs s = Some (QueryAnswer, a, s1) ->
  happenings env args (Service.resource (service (auth s)))
    (query_ok res :: hs') (QueryAnswer, a, s1) = Some (stage, a', s2) ->
  (unreadable (Env.JSON_parse env res) = true ->
   stage = Threw /\ cb_calls s2 = cb_calls s)
  /\ (unreadable (Env.JSON_parse env res) = false ->
      stage = Completed /\ cb_calls s2 = S (cb_calls s)).
Proof.
  intros reach after.
  assert (count1 : cb_calls s1 = cb_calls s).
  { unfold command in reach.
    pose proof (action_cb env args getTime s) as start.
    destruct (action env args getTime s) as [[stage0 a0] s0].
    apply happenings_cb in reach. cbn [fst snd completed] in *. lia. }
  pose proof (happenings_cb _ _ _ _ _ _ after) as count2.
  cbn [fst snd completed] in count2.
  cbn [happenings] in after. unfold happen in after. cbn [fst snd] in after.
  pose proof (on_result_cb env (verbose_of args) (cdnType_of args) res s1)
    as (_ & ended & threw).
  destruct (on_result env (verbose_of args) (cdnType_of args) res s1)
    as [stage1 s1'].
  cbn [fst] in ended, threw.
  pose proof (happenings_ended _ _ _ _ _ _ _ _ ended after) as same.
  cbn [fst] in same. subst stage1.
  split; intros answer.
  - apply threw in answer. subst stage. cbn [completed] in count2. split; [auto | lia].
  - destruct ended as [-> | ->].
    + cbn [completed] in count2. split; [auto | lia].
    + rewrite (proj1 threw eq_refl) in answer. discriminate.
Qed.

Lemma answer_decides_the_callback_witness :
  option_map (fun r => (fst (fst r), cb_calls (snd r)))
    (command env_unparsed no_options clock
       [contextinfo_ok (ContextInfo.mk "digest"); query_ok "<html>"]
       shell_connected)
  = Some (Threw, 0).
Proof.
  destruct (command env_unparsed no_options clock
              [contextinfo_ok (ContextInfo.mk "digest")] shell_connected)
    as [[[stage1 a1] s1]|] eqn:first; [|vm_compute in first; discriminate].
  assert (stage_is : stage1 = QueryAnswer).
  { assert (computed : option_map (fun r => fst (fst r))
                         (command env_unparsed no_options clock
                            [contextinfo_ok (ContextInfo.mk "digest")] shell_connected)
                       = Some QueryAnswer) by (vm_compute; reflexivity).
    rewrite first in computed. now injection computed. }
  subst stage1.
  assert (whole : command env_unparsed no_options clock
                    [contextinfo_ok (ContextInfo.mk "digest"); query_ok "<html>"]
                    shell_connected
                  = happenings env_unparsed no_options
                      (Service.resource (service (auth shell_connected)))
                      [query_ok "<html>"] (QueryAnswer, a1, s1)).
  { unfold command in *.
    destruct (action env_unparsed no_options clock shell_connected) as [j s0].
    cbn [happenings] in *.
    destruct (happen env_unparsed no_options _ (contextinfo_ok _) (j, s0)) as [r|];
      [|discriminate]. now injection first as ->. }
  rewrite whole.
  destruct (happenings env_unparsed no_options
              (Service.resource (service (auth shell_connected)))
              [query_ok "<html>"] (QueryAnswer, a1, s1))
    as [[[stage a'] s2]|] eqn:after;
    [|cbn in after; discriminate].
  destruct (answer_decides_the_callback env_unparsed no_options clock
              [contextinfo_ok (ContextInfo.mk "digest")] shell_connected
              a1 s1 "<html>" [] stage a' s2 first after) as [threw _].
  destruct (threw eq_refl) as [-> count].
  cbn [option_map fst snd]. now rewrite count.
Defined.

(** X14: what the command tells the user when the answer can be read,
    for arguments that [validate] accepts.  If the first element of the
    answer has an [ErrorInfo], the last line is its [ErrorMessage] after
    [Error: ], in red, and the rest of the answer is not looked at.
    Otherwise the last line names the CDN that was asked for and the
    site, and says [enabled] exactly when the last element of the answer
    is [true], [disabled] for anything else.  Without the verbose option
    that line is the only one written.  No request is sent. *)
Theorem answer_is_reported env args resource a s1 res json :
  validate args = inl true ->
  Env.JSON_parse env res = Some json ->
  unreadable (Some json) = false ->
  exists s2 trace,
    happen env args resource (query_ok res) (QueryAnswer, a, s1)
    = Some (Completed, a, s2)
    /\ sink s2
       = (sink s1 ++ trace
          ++ [logged (log_text
                match json with
                | item_contents (Some ErrorMessage) :: _ =>
                    [str (Env.red env ("Error: " ++ ErrorMessage))]
                | _ =>
                    [str (cdnTypeString_of args); str " CDN at ";
                     str (Site.url (site s1)); str " is ";
                     str (if is_true (last json item_other)
                          then "enabled" else "disabled")]
                end)])%list
    /\ (verbose_of args = false -> trace = [])
    /\ network (auth s2) = network (auth s1).
Proof.
  intros valid parsed readable.
  destruct (validated_names args valid) as [_ named].
  unfold happen. cbn [fst snd]. unfold on_result. rewrite parsed, <- named.
  assert (quiet : forall l : list Line, (l ++ [])%list = l) by apply app_nil_r.
  destruct json as [|[| |[ErrorMessage|]| |] rest]; try discriminate readable;
    (destruct (verbose_of args);
     [ run_command; cbn [map]; rewrite ?quiet; eexists;
       exists [logged (log_text [str "Response:"]); logged (log_text [str res]);
               logged (log_text [str ""])]
     | run_command; cbn [map]; rewrite ?quiet; eexists; exists [] ]);
    (split; [reflexivity|]); cbn [sink log auth stdout map];
    rewrite ?quiet, <- ?app_assoc; cbn [app];
    repeat split; auto; discriminate.
Qed.

Lemma answer_is_reported_witness :
  exists s2 trace,
    happen env_enabled no_options "https://contoso-admin.sharepoint.com"
      (query_ok "[{},true]") (QueryAnswer, Nothing, shell_connected)
    = Some (Completed, Nothing, s2)
    /\ sink s2
       = (sink shell_connected ++ trace
          ++ [logged (log_text
                        [str "Public"; str " CDN at ";
                         str "https://contoso-admin.sharepoint.com"; str " is ";
                         str "enabled"])])%list
    /\ (verbose_of no_options = false -> trace = [])
    /\ network (auth s2) = network (auth shell_connected).
Proof.
  exact (answer_is_reported env_enabled no_options
           "https://contoso-admin.sharepoint.com" Nothing shell_connected
           "[{},true]" [item_contents None; item_true] eq_refl eq_refl eq_refl).
Defined.

(* ===================================================================== *)
(** ** [ensureAccessToken]: the call itself, and the verbose mode *)
(* ===================================================================== *)

(** X15: before it returns, [ensureAccessToken] does one of three
    things and nothing else: it resolves with the token of the store and
    sends nothing, or it sends one refresh-token exchange, or it sends
    one device-code request, the promise left pending in both.  It never
    rejects before an answer has arrived, and it writes neither the token
    store nor the timers nor [this.interval]: only the answers do. *)
Theorem call_sends_at_most_one_request resource verbose getTime w :
  let c := ensureAccessToken resource verbose getTime w in
  service (snd c) = service w
  /\ timers (snd c) = timers w
  /\ interval (snd c) = interval w
  /\ ((fst c = Nothing
       /\ promise (snd c) = Resolved (Service.accessToken (service w))
       /\ network (snd c) = network w
       /\ still_valid getTime w = true)
      \/ (fst c = RefreshAnswer
          /\ promise (snd c) = Pending
          /\ network (snd c)
             = (network w
                ++ [POST (refresh_options resource (appId w)
                            (JS.show (Service.refreshToken (service w))))])%list
          /\ still_valid getTime w = false
          /\ JS.truthy (Service.refreshToken (service w)) = true)
      \/ (fst c = DeviceCodeAnswer
          /\ promise (snd c) = Pending
          /\ network (snd c)
             = (network w ++ [GET (devicecode_options resource (appId w))])%list
          /\ still_valid getTime w = false
          /\ JS.truthy (Service.refreshToken (service w)) = false)).
Proof.
  cbv zeta.
  destruct (still_valid getTime w) eqn:valid.
  - destruct (ensureAccessToken_cached resource verbose getTime w valid) as [out ->].
    cbn [fst snd service timers interval promise network]. auto 10.
  - destruct (JS.truthy (Service.refreshToken (service w))) eqn:set.
    + destruct (ensureAccessToken_refresh resource verbose getTime w valid set)
        as [out ->].
      cbn [fst snd service timers interval promise network].
      repeat split; auto. right. left. auto.
    + destruct (ensureAccessToken_devicecode resource verbose getTime w valid set)
        as [out ->].
      cbn [fst snd service timers interval promise network].
      repeat split; auto. right. right. auto.
Qed.

(** Two worlds that differ in [stdout] only are taken to the same place
    by the call and by every event, whatever the verbose flags. *)
Lemma muted_fields (w1 w2 : World) :
  muted w1 = muted w2 ->
  service w1 = service w2 /\ appId w1 = appId w2 /\ interval w1 = interval w2
  /\ timers w1 = timers w2 /\ promise w1 = promise w2 /\ network w1 = network w2.
Proof.
  intros same.
  change (service (muted w1) = service (muted w2)
          /\ appId (muted w1) = appId (muted w2)
          /\ interval (muted w1) = interval (muted w2)
          /\ timers (muted w1) = timers (muted w2)
          /\ promise (muted w1) = promise (muted w2)
          /\ network (muted w1) = network (muted w2)).
  now rewrite same.
Qed.

Lemma muted_start resource v1 v2 getTime w1 w2 :
  muted w1 = muted w2 ->
  fst (ensureAccessToken resource v1 getTime w1)
  = fst (ensureAccessToken resource v2 getTime w2)
  /\ muted (snd (ensureAccessToken resource v1 getTime w1))
     = muted (snd (ensureAccessToken resource v2 getTime w2)).
Proof.
  intros same.
  destruct (muted_fields w1 w2 same) as (sv & app & iv & ts & pr & nw).
  assert (valid : still_valid getTime w1 = still_valid getTime w2)
    by (unfold still_valid; now rewrite sv).
  destruct (still_valid getTime w2) eqn:valid2.
  - destruct (ensureAccessToken_cached resource v1 getTime w1 valid) as [out1 ->].
    destruct (ensureAccessToken_cached resource v2 getTime w2 valid2) as [out2 ->].
    rewrite sv, app, iv, ts, nw. split; reflexivity.
  - destruct (JS.truthy (Service.refreshToken (service w2))) eqn:set2.
    + assert (set1 : JS.truthy (Service.refreshToken (service w1)) = true)
        by now rewrite sv.
      destruct (ensureAccessToken_refresh resource v1 getTime w1 valid set1)
        as [out1 ->].
      destruct (ensureAccessToken_refresh resource v2 getTime w2 valid2 set2)
        as [out2 ->].
      rewrite sv, app, iv, ts, nw. split; reflexivity.
    + assert (set1 : JS.truthy (Service.refreshToken (service w1)) = false)
        by now rewrite sv.
      destruct (ensureAccessToken_devicecode resource v1 getTime w1 valid set1)
        as [out1 ->].
      destruct (ensureAccessToken_devicecode resource v2 getTime w2 valid2 set2)
        as [out2 ->].
      rewrite sv, app, iv, ts, nw. split; reflexivity.
Qed.

Lemma muted_deliver resource v1 v2 ev a w1 w2 c1 :
  muted w1 = muted w2 ->
  deliver resource v1 ev (a, w1) = Some c1 ->
  exists c2,
    deliver resource v2 ev (a, w2) = Some c2
    /\ fst c2 = fst c1
    /\ muted (snd c2) = muted (snd c1).
Proof.
  destruct w1 as [sv1 ap1 iv1 ts1 pr1 nw1 out1], w2 as [sv2 ap2 iv2 ts2 pr2 nw2 out2].
  unfold muted. cbn [service appId interval timers promise network].
  intros [= -> -> -> -> -> ->].
  unfold deliver. cbn [fst snd].
  destruct a as [| | |t deviceCode n], ev; try discriminate.
  - intros [= <-]. eexists. split; [reflexivity|].
    unfold refresh_resolved.
    destruct v1, v2, pr2; run_monad; split; reflexivity.
  - intros [= <-]. eexists. split; [reflexivity|].
    unfold refresh_rejected.
    destruct v1, v2, pr2; run_monad; split; reflexivity.
  - intros [= <-]. eexists. split; [reflexivity|].
    unfold devicecode_resolved.
    destruct v1, v2; run_monad; split; reflexivity.
  - intros [= <-]. eexists. split; [reflexivity|].
    unfold devicecode_rejected.
    destruct pr2; run_monad; split; reflexivity.
  - unfold live. cbn [timers].
    destruct (existsb (fun e => Nat.eqb (fst e) t) ts2); [|discriminate].
    intros [= <-]. eexists. split; [reflexivity|].
    unfold interval_callback.
    destruct v1, v2; run_monad; split; reflexivity.
  - destruct n as [|n]; [discriminate|].
    intros [= <-]. eexists. split; [reflexivity|].
    unfold poll_resolved.
    destruct v1, v2, pr2; run_monad; split; reflexivity.
  - destruct n as [|n]; [discriminate|].
    intros [= <-]. eexists. split; [reflexivity|].
    unfold poll_rejected.
    destruct (negb (code rej2 =? "authorization_pending"));
      destruct v1, v2, pr2; run_monad; split; reflexivity.
Qed.

Lemma muted_run resource v1 v2 es :
  forall c1 c2 c1',
    fst c1 = fst c2 -> muted (snd c1) = muted (snd c2) ->
    run resource v1 es c1 = Some c1' ->
    exists c2',
      run resource v2 es c2 = Some c2'
      /\ fst c2' = fst c1'
      /\ muted (snd c2') = muted (snd c1').
Proof.
  induction es as [|ev es IH]; intros [a w1] [a2 w2] c1'; cbn [fst snd run].
  - intros -> same [= <-]. eexists. split; [reflexivity|]. auto.
  - intros <- same.
    destruct (deliver resource v1 ev (a, w1)) as [c1|] eqn:D; [|discriminate].
    destruct (muted_deliver resource v1 v2 ev a w1 w2 c1 same D)
      as (c2 & -> & phase & same').
    apply IH; auto.
Qed.

(** X16: the verbose flag changes what is logged and nothing else.  A
    session that runs with one value of the flag runs with the other,
    through the same events, to the same place: the call waits for the
    same answer, and the token store, the promise, the timers,
    [this.interval] and the requests sent are the same. *)
Theorem verbose_only_logs resource verbose getTime es w c :
  session resource verbose getTime es w = Some c ->
  exists c',
    session resource (negb verbose) getTime es w = Some c'
    /\ fst c' = fst c
    /\ service (snd c') = service (snd c)
    /\ promise (snd c') = promise (snd c)
    /\ timers (snd c') = timers (snd c)
    /\ interval (snd c') = interval (snd c)
    /\ network (snd c') = network (snd c).
Proof.
  unfold session. intros R.
  destruct (muted_start resource verbose (negb verbose) getTime w w eq_refl)
    as [phase same].
  destruct (muted_run resource verbose (negb verbose) es _ _ c phase same R)
    as (c' & R' & phase' & same').
  exists c'. split; [exact R'|]. split; [exact phase'|].
  destruct (muted_fields _ _ same') as (sv & _ & iv & ts & pr & nw).
  repeat split; assumption.
Qed.

Lemma verbose_only_logs_witness :
  let w := world_of (Service.disconnect
                       (Service.mk true "old" (Some "AT0") (Some "RT0") 2000%float)) in
  exists c c',
    session "https://graph.example.com" true clock
      [devicecode_ok device_code_abc; tick; poll_ok token_AT1] w = Some c
    /\ session "https://graph.example.com" false clock
         [devicecode_ok device_code_abc; tick; poll_ok token_AT1] w = Some c'
    /\ network (snd c') = network (snd c)
    /\ stdout (snd c') = [log_text [str "go to url, enter XYZ"]].
Proof.
  intros w.
  destruct (session "https://graph.example.com" true clock
              [devicecode_ok device_code_abc; tick; poll_ok token_AT1] w)
    as [c|] eqn:loud; [|vm_compute in loud; discriminate].
  destruct (verbose_only_logs "https://graph.example.com" true clock
              [devicecode_ok device_code_abc; tick; poll_ok token_AT1] w c loud)
    as (c' & quiet & _ & _ & _ & _ & _ & sent).
  exists c, c'. split; [reflexivity|]. split; [exact quiet|]. split; [exact sent|].
  cbn [negb] in quiet.
  assert (computed : option_map (fun r => stdout (snd r))
                       (session "https://graph.example.com" false clock
                          [devicecode_ok device_code_abc; tick; poll_ok token_AT1] w)
                     = Some [log_text [str "go to url, enter XYZ"]])
    by (vm_compute; reflexivity).
  rewrite quiet in computed. now injection computed.
Defined.

(* ===================================================================== *)
(** ** One call after another *)
(* ===================================================================== *)

(** X17: after [disconnect()], whatever the store held, the next call of
    [ensureAccessToken] signs in anew: it uses neither the cache nor a
    refresh token, and sends the one device-code request -- provided the
    clock does not read a time before [-1], for [expiresAt = -1] alone
    keeps the empty access token from being served. *)
Theorem disconnect_forces_device_flow resource verbose getTime w sv :
  JS.gtb (-1)%float (getTime / 1000) = false ->
  let c := ensureAccessToken resource verbose getTime
             (with_service (Service.disconnect sv) w) in
  fst c = DeviceCodeAnswer
  /\ promise (snd c) = Pending
  /\ network (snd c) = (network w ++ [GET (devicecode_options resource (appId w))])%list
  /\ service (snd c) = Service.disconnect sv.
Proof.
  intros sane. cbv zeta.
  assert (expired : still_valid getTime (with_service (Service.disconnect sv) w) = false).
  { unfold still_valid, with_service. run_monad.
    change (JS.gtb (-1)%float (getTime / 1000) && true = false).
    now rewrite sane. }
  destruct (ensureAccessToken_devicecode resource verbose getTime
              (with_service (Service.disconnect sv) w) expired eq_refl) as [out ->].
  repeat split.
Qed.

Lemma disconnect_forces_device_flow_witness :
  let c := ensureAccessToken "https://graph.example.com" false clock
             (with_service
                (Service.disconnect
                   (Service.mk true "https://graph.example.com"
                               (Some "AT0") (Some "RT0") 2000%float))
                (world_of (Service.mk true "https://graph.example.com"
                                      (Some "AT0") (Some "RT0") 2000%float))) in
  fst c = DeviceCodeAnswer
  /\ network (snd c)
     = [GET (devicecode_options "https://graph.example.com" (Some "app-id"))].
Proof.
  destruct (disconnect_forces_device_flow "https://graph.example.com" false clock
              (world_of (Service.mk true "https://graph.example.com"
                                    (Some "AT0") (Some "RT0") 2000%float))
              (Service.mk true "https://graph.example.com"
                          (Some "AT0") (Some "RT0") 2000%float) eq_refl)
    as (phase & _ & sent & _).
  split; [exact phase | exact sent].
Defined.

(** The store after a token was written to it. *)
Lemma token_written verbose json w1 :
  service (exec (refresh_resolved verbose json) w1)
  = Service.mk (Service.connected (service w1)) (Service.resource (service w1))
               (Some (Token.access_token json)) (Some (Token.refresh_token json))
               (Token.expires_on json)
  /\ service (exec (poll_resolved verbose json) w1)
     = service (exec (refresh_resolved verbose json) w1)
  /\ appId (exec (refresh_resolved verbose json) w1) = appId w1
  /\ appId (exec (poll_resolved verbose json) w1) = appId w1
  /\ network (exec (refresh_resolved verbose json) w1) = network w1
  /\ network (exec (poll_resolved verbose json) w1) = network w1.
Proof.
  unfold refresh_resolved, poll_resolved.
  destruct verbose, (promise w1) eqn:pending; run_monad in *;
    rewrite pending; run_monad; repeat split.
Qed.

(** X18: what the next call does after a token was received, by the
    refresh-token exchange or by a poll.  A call made while
    [expires_on] of that token is greater than the time resolves with
    its [access_token] and sends nothing.  A call made when it is not
    sends one refresh-token exchange, and the refresh token it sends is
    the [refresh_token] that came with that token, not an earlier one. *)
Theorem next_call_after_token resource verbose getTime json w1 w2 :
  w2 = exec (refresh_resolved verbose json) w1
  \/ w2 = exec (poll_resolved verbose json) w1 ->
  let c := ensureAccessToken resource verbose getTime w2 in
  (JS.gtb (Token.expires_on json) (getTime / 1000) = true ->
   fst c = Nothing
   /\ promise (snd c) = Resolved (Some (Token.access_token json))
   /\ network (snd c) = network w1)
  /\ (JS.gtb (Token.expires_on json) (getTime / 1000) = false ->
      Token.refresh_token json <> "" ->
      fst c = RefreshAnswer
      /\ promise (snd c) = Pending
      /\ network (snd c)
         = (network w1
            ++ [POST (refresh_options resource (appId w1)
                        (Token.refresh_token json))])%list).
Proof.
  intros after. cbv zeta.
  destruct (token_written verbose json w1) as (store & same & app1 & app2 & sent1 & sent2).
  assert (facts : service w2
                  = Service.mk (Service.connected (service w1))
                               (Service.resource (service w1))
                               (Some (Token.access_token json))
                               (Some (Token.refresh_token json))
                               (Token.expires_on json)
                  /\ appId w2 = appId w1 /\ network w2 = network w1).
  { destruct after as [-> | ->]; [|rewrite same]; auto. }
  destruct facts as (held & app & sent).
  split.
  - intros fresh.
    assert (valid : still_valid getTime w2 = true).
    { unfold still_valid. rewrite held. cbn [Service.expiresAt Service.accessToken].
      now rewrite fresh. }
    destruct (ensureAccessToken_cached resource verbose getTime w2 valid) as [out ->].
    cbn [fst snd promise network]. rewrite held, sent. repeat split.
  - intros stale nonempty.
    assert (expired : still_valid getTime w2 = false).
    { unfold still_valid. rewrite held. cbn [Service.expiresAt Service.accessToken].
      now rewrite stale. }
    assert (set : JS.truthy (Service.refreshToken (service w2)) = true).
    { rewrite held. cbn [Service.refreshToken].
      destruct (Token.refresh_token json); [congruence | reflexivity]. }
    destruct (ensureAccessToken_refresh resource verbose getTime w2 expired set)
      as [out ->].
    cbn [fst snd promise network]. rewrite held, sent, app. repeat split.
Qed.

Lemma next_call_after_token_witness :
  let w1 := snd (ensureAccessToken "https://graph.example.com" false clock
                   (world_of (Service.mk true "https://graph.example.com"
                                         (Some "AT0") (Some "RT0") 900%float))) in
  let w2 := exec (refresh_resolved false token_AT1) w1 in
  (fst (ensureAccessToken "https://graph.example.com" false 2000000%float w2) = Nothing
   /\ promise (snd (ensureAccessToken "https://graph.example.com" false 2000000%float w2))
      = Resolved (Some "AT1"))
  /\ fst (ensureAccessToken "https://graph.example.com" false 5000000%float w2)
     = RefreshAnswer.
Proof.
  intros w1 w2. split.
  - destruct (proj1 (next_call_after_token "https://graph.example.com" false
                       2000000%float token_AT1 w1 w2 (or_introl eq_refl)) eq_refl)
      as (phase & resolved & _).
    split; [exact phase | exact resolved].
  - apply (proj2 (next_call_after_token "https://graph.example.com" false
                    5000000%float token_AT1 w1 w2 (or_introl eq_refl)));
      [reflexivity | discriminate].
Defined.

(** With a clock that reads a time before [-1], the empty access token
    that [disconnect()] leaves is served from the store. *)
Example empty_token_before_the_epoch :
  let c := ensureAccessToken "https://graph.example.com" false (-5000000)%float
             (with_service (Service.disconnect
                              (Service.mk true "" (Some "AT0") (Some "RT0") 2000%float))
                           (world_of (Service.mk true "" None None 0%float))) in
  fst c = Nothing /\ promise (snd c) = Resolved (Some "") /\ network (snd c) = [].
Proof.
  repeat split.
Qed.
